(** * gotestwatch: dependency-aware test selection

    A shallow embedding of [main.go] (the debouncing revision): the package
    model decoded from [go list -json], the reverse dependency index
    ([buildRevdeps]), the per-directory resolver ([testsToRun]), the batch
    resolver and dispatcher ([runAllTests]) and the event collector
    ([debounceFor]).

    Modelling conventions.
    - A Go [string] is a Rocq [string] (a sequence of bytes).
    - A slice is a [list]; the [nil] slice and the empty slice are both [[]]
      (the program only ever asks for their length and their elements).
    - A [*Package] is an address [ptr]; the packages themselves live in a
      store [deref : ptr -> Package] that is never written after loading.
      Pointer comparison ([slices.Contains] on a [[]*Package]) is equality
      of addresses.
    - A Go map is a [gmap]; reading an absent key yields the zero value.
      The order in which [range] visits a map is unspecified, so every loop
      over a map takes the visiting order as an explicit list, constrained
      to be a permutation of the map's entries. *)

From Stdlib Require Import Strings.String Strings.Ascii Structures.OrdersEx.
From stdpp Require Import base gmap list strings sorting pretty.

Local Open Scope string_scope.
Local Open Scope list_scope.

(** ** Library functions used by the program *)

Module GoLib.

(** [strings.HasPrefix(s, prefix)]: whether [s] begins with [prefix]. *)
Fixpoint strings_HasPrefix (s prefix : string) : bool :=
  match prefix, s with
  | EmptyString, _ => true
  | String _ _, EmptyString => false
  | String p prefix', String c s' =>
      if Ascii.eqb p c then strings_HasPrefix s' prefix' else false
  end.

(** [strings.TrimSuffix(s, "/")]: [s] without one trailing slash, if any. *)
Fixpoint strings_TrimSuffix_slash (s : string) : string :=
  match s with
  | EmptyString => EmptyString
  | String c EmptyString => if Ascii.eqb c "/" then EmptyString else s
  | String c s' => String c (strings_TrimSuffix_slash s')
  end.

(** [filepath.Split(path)] on a system whose separator is the slash: the
    path is cut right after its last slash; without any slash the directory
    part is empty. *)
Fixpoint filepath_Split (path : string) : string * string :=
  match path with
  | EmptyString => (EmptyString, EmptyString)
  | String c rest =>
      match filepath_Split rest with
      | (EmptyString, _) =>
          if Ascii.eqb c "/" then (String c EmptyString, rest)
          else (EmptyString, String c rest)
      | (d, f) => (String c d, f)
      end
  end.

(** [slices.Contains(s, v)] *)
Definition slices_Contains {A} `{EqDecision A} (s : list A) (v : A) : bool :=
  bool_decide (v ∈ s).

(** [slices.DeleteFunc(s, del)]: the elements for which [del] is false, in
    their original order. *)
Fixpoint slices_DeleteFunc {A} (s : list A) (del : A → bool) : list A :=
  match s with
  | [] => []
  | x :: s' =>
      if del x then slices_DeleteFunc s' del else x :: slices_DeleteFunc s' del
  end.

(** Go's [<=] on strings: bytewise lexicographic order. *)
Definition string_le (a b : string) : Prop := String_as_OT.compare a b ≠ Gt.

Global Instance string_le_dec a b : Decision (string_le a b).
Proof. unfold string_le. apply _. Defined.

(** [slices.Sort(paths)]: the ascending rearrangement of [paths]. *)
Definition slices_Sort (paths : list string) : list string :=
  merge_sort string_le paths.

(** [slices.Compact(s)]: every run of equal consecutive elements is replaced
    by a single copy. *)
Fixpoint slices_Compact {A} `{EqDecision A} (s : list A) : list A :=
  match s with
  | [] => []
  | x :: s' =>
      match s' with
      | [] => [x]
      | y :: _ => if decide (x = y) then slices_Compact s' else x :: slices_Compact s'
      end
  end.

End GoLib.
Export GoLib.

(** ** The package model *)

(** The nested [Module struct { Path string }] of a package. *)
Record ModuleInfo := { Path : string }.

(** [type Package struct]: what [go list -json] reports for one package. *)
Record Package := {
  Dir : string;
  ImportPath : string;
  Deps : list string;
  GoFiles : list string;
  IgnoredGoFiles : list string;
  TestGoFiles : list string;
  XTestGoFiles : list string;
  EmbedFiles : list string;
  TestImports : list string;
  XTestImports : list string;
  Module_ : ModuleInfo
}.

(** The value of [&Package{}] before decoding fills it in. *)
Definition zeroPackage : Package :=
  {| Dir := ""; ImportPath := ""; Deps := []; GoFiles := [];
     IgnoredGoFiles := []; TestGoFiles := []; XTestGoFiles := [];
     EmbedFiles := []; TestImports := []; XTestImports := [];
     Module_ := {| Path := "" |} |}.

(** Addresses of packages. *)
Definition ptr := nat.

(** [loadPackages], from the point where the JSON stream has been decoded
    into the sequence [decoded]: the i-th decoded package is allocated at
    address [i] and stored under its [Dir]; a later package with the same
    [Dir] replaces an earlier one. *)
Definition loadPackages_store (decoded : list Package) : ptr → Package :=
  λ p, nth p decoded zeroPackage.

Fixpoint loadPackages_from (next : ptr) (decoded : list Package)
    (pkgs : gmap string ptr) : gmap string ptr :=
  match decoded with
  | [] => pkgs
  | pkg :: decoded' => loadPackages_from (S next) decoded' (<[Dir pkg := next]> pkgs)
  end.

Definition loadPackages (decoded : list Package) : gmap string ptr :=
  loadPackages_from 0 decoded ∅.

(** [order] is a possible order for [range m] to visit the entries of [m]. *)
Definition visits {V} (m : gmap string V) (order : list (string * V)) : Prop :=
  order ≡ₚ map_to_list m.

(** [allFunc(s, f)] *)
Fixpoint allFunc {E} (s : list E) (f : E → bool) : bool :=
  match s with
  | [] => true
  | x :: s' => if negb (f x) then false else allFunc s' f
  end.

(** What one call of [runAllTests] does to the outside world. *)
Record Outcome := {
  printed : list string;          (* the lines written to standard output *)
  executed : option (list string); (* the arguments of the [go] command run, if any *)
  failure : option string         (* the returned error; [None] is [nil] *)
}.

Section Resolver.

(** The package store, and the external test executor: [go args] is the
    error of running [go] with [args] ([None] when the command succeeds). *)
Variable deref : ptr → Package.
Variable go : list string → option string.

(** *** [buildRevdeps] *)

(** Body of the first inner loop, for one [dep] of [pkg.Deps]. *)
Definition recordDep (pkg : ptr) (revdeps : gmap string (list ptr)) (dep : string)
    : gmap string (list ptr) :=
  if strings_HasPrefix dep (Path (Module_ (deref pkg)))
  then <[dep := revdeps !!! dep ++ [pkg]]> revdeps
  else revdeps.

(** Body of the second inner loop, for one [imp] of the test imports. *)
Definition recordTestDep (pkg : ptr) (revdeps : gmap string (list ptr)) (imp : string)
    : gmap string (list ptr) :=
  if strings_HasPrefix imp (Path (Module_ (deref pkg)))
     && negb (slices_Contains (revdeps !!! imp) pkg)
  then <[imp := revdeps !!! imp ++ [pkg]]> revdeps
  else revdeps.

(** Body of the outer loop, for one package. *)
Definition recordPackage (revdeps : gmap string (list ptr)) (pkg : ptr)
    : gmap string (list ptr) :=
  foldl (recordTestDep pkg)
        (foldl (recordDep pkg) revdeps (Deps (deref pkg)))
        (TestImports (deref pkg) ++ XTestImports (deref pkg)).

(** [buildRevdeps] when [range pkgs] visits the entries in [order]. *)
Definition buildRevdeps_in (order : list (string * ptr)) : gmap string (list ptr) :=
  foldl (λ revdeps entry, recordPackage revdeps entry.2) ∅ order.

Definition buildRevdeps (pkgs : gmap string ptr) : gmap string (list ptr) :=
  buildRevdeps_in (map_to_list pkgs).

(** *** [testsToRun] *)

Definition isIgnored (pkg : ptr) (filename : string) : bool :=
  slices_Contains (IgnoredGoFiles (deref pkg)) filename.

Definition isTestFile (pkg : ptr) (filename : string) : bool :=
  slices_Contains (TestGoFiles (deref pkg)) filename
  || slices_Contains (XTestGoFiles (deref pkg)) filename.

Definition testsToRun (pkg : ptr) (revdeps : list ptr) (filenames : list string)
    : list ptr :=
  if (length revdeps =? 0)%nat then []
  else
    let filenames := slices_DeleteFunc filenames (isIgnored pkg) in
    if (length filenames =? 0)%nat then []
    else
      let toRun := revdeps in
      if allFunc filenames (isTestFile pkg) then [pkg]
      else toRun ++ [pkg].

(** *** [runAllTests] *)

(** The owning directory and the file name of a changed path. *)
Definition splitPath (filename : string) : string * string :=
  let '(dir, filename) := filepath_Split filename in
  (strings_TrimSuffix_slash dir, filename).

(** First loop: group the file names by directory. *)
Definition groupByDir (filenames : list string) : gmap string (list string) :=
  foldl (λ byDir filename,
           let '(dir, filename) := splitPath filename in
           <[dir := byDir !!! dir ++ [filename]]> byDir)
        ∅ filenames.

(** Body of the second loop, for one entry of [byDir]. *)
Definition collectDir (pkgs : gmap string ptr) (revdeps : gmap string (list ptr))
    (toRun : list ptr) (entry : string * list string) : list ptr :=
  match pkgs !! entry.1 with
  | None => toRun
  | Some pkg =>
      toRun ++ testsToRun pkg (revdeps !!! ImportPath (deref pkg)) entry.2
  end.

(** Second loop, when [range byDir] visits the entries in [order]. *)
Definition collectAll (pkgs : gmap string ptr) (revdeps : gmap string (list ptr))
    (order : list (string * list string)) : list ptr :=
  foldl (collectDir pkgs revdeps) [] order.

Definition hasNoTests (pkg : ptr) : bool :=
  (length (TestGoFiles (deref pkg)) =? 0)%nat && (length (XTestGoFiles (deref pkg)) =? 0)%nat.

(** From the collected packages to the sorted, compacted import paths. *)
Definition pathsOf (toRun : list ptr) : list string :=
  let toRun := slices_DeleteFunc toRun hasNoTests in
  let paths := map (λ pkg, ImportPath (deref pkg)) toRun in
  slices_Compact (slices_Sort paths).

(** The import paths selected for a batch, when [range byDir] visits the
    groups in [order]. *)
Definition resolve_in (pkgs : gmap string ptr) (revdeps : gmap string (list ptr))
    (order : list (string * list string)) : list string :=
  pathsOf (collectAll pkgs revdeps order).

(** The reporting and dispatching tail of [runAllTests]. *)
Definition dispatch (paths : list string) : Outcome :=
  if (length paths =? 0)%nat then
    {| printed := ["No affected tests to run"]; executed := None; failure := None |}
  else
    let banner :=
      if (length paths =? 1)%nat then "Running tests in 1 package..."
      else "Running tests in " +:+ pretty (length paths) +:+ " packages..." in
    let args := "test" :: paths in
    match go args with
    | Some err => {| printed := [banner]; executed := Some args; failure := Some err |}
    | None =>
        {| printed := [banner; "Tests passed"]; executed := Some args; failure := None |}
    end.

Definition runAllTests_in (pkgs : gmap string ptr) (revdeps : gmap string (list ptr))
    (order : list (string * list string)) : Outcome :=
  dispatch (resolve_in pkgs revdeps order).

(** [runAllTests] with the groups visited in the order [map_to_list] lists
    them; the theorems below are stated for every possible order. *)
Definition resolve (pkgs : gmap string ptr) (revdeps : gmap string (list ptr))
    (filenames : list string) : list string :=
  resolve_in pkgs revdeps (map_to_list (groupByDir filenames)).

Definition runAllTests (pkgs : gmap string ptr) (revdeps : gmap string (list ptr))
    (filenames : list string) : Outcome :=
  dispatch (resolve pkgs revdeps filenames).

End Resolver.

(** ** [debounceFor] and the dispatch loop *)

Module Debounce.

(** Time is counted in nanoseconds, as [time.Duration] does. *)
Definition Millisecond : N := 1000000.
Definition debouncePeriod : N := (200 * Millisecond)%N.

Section Collector.

Context {T : Type}.

(** One value sent on the channel: the instant from which its sender is
    ready to hand it over, and the value. The channel is a list of offers
    in the order they are sent; the empty list is a channel on which
    nothing more will ever be sent. *)
Record Offer := { arrival : N; payload : T }.

(** The result of a collection: the events, the instant at which the
    function returns, and what is left on the channel. *)
Record Collected := { events : list T; returned : N; remaining : list Offer }.

(** The [for { select { ... } }] loop of [debounceFor], entered at instant
    [now] with the timer created by [time.After] firing at [deadline].

    - [case t := <-ch] can proceed from [max now (arrival o)];
    - [case <-deadline] can proceed from [max now deadline];
    - [select] takes the case that can proceed first; when both can proceed
      at the same instant the runtime picks one of them: [coin k] is its
      pick when [k] events have been received so far ([true]: receive).

    The loop body itself takes no time. The deadline is a parameter of the
    loop and is never recomputed: [time.After] is called once, before the
    loop. *)
Fixpoint debounceLoop (coin : nat → bool) (deadline now : N)
    (evs : list T) (ch : list Offer) : Collected :=
  match ch with
  | [] => {| events := evs; returned := N.max now deadline; remaining := [] |}
  | o :: ch' =>
      let ready := N.max now (arrival o) in
      let fires := N.max now deadline in
      if (ready <? fires)%N then
        debounceLoop coin deadline ready (evs ++ [payload o]) ch'
      else if (fires <? ready)%N then
        {| events := evs; returned := fires; remaining := ch |}
      else if coin (length evs) then
        debounceLoop coin deadline ready (evs ++ [payload o]) ch'
      else
        {| events := evs; returned := fires; remaining := ch |}
  end.

(** [debounceFor(ch, duration)] called at instant [now]. *)
Definition debounceFor (coin : nat → bool) (now : N) (ch : list Offer) (duration : N)
    : Collected :=
  let deadline := (now + duration)%N in
  debounceLoop coin deadline now [] ch.

(** One turn of the loop [for event := range w.Events] in [run], up to the
    call of [runAllTests]: wait for one event, then collect with
    [debounceFor]; the batch is the first event followed by the collected
    ones. [None]: nothing is ever sent, the loop waits for ever. *)
Definition nextBatch (coin : nat → bool) (now : N) (ch : list Offer)
    : option Collected :=
  match ch with
  | [] => None
  | first :: ch' =>
      let start := N.max now (arrival first) in
      let c := debounceFor coin start ch' debouncePeriod in
      Some {| events := payload first :: events c;
              returned := returned c;
              remaining := remaining c |}
  end.

(** The events of a burst are less than [window] apart. *)
Fixpoint spacedWithin (window : N) (ch : list Offer) : Prop :=
  match ch with
  | [] => True
  | o :: ch' =>
      match ch' with
      | [] => True
      | o' :: _ => (arrival o ≤ arrival o' ∧ arrival o' < arrival o + window)%N
      end ∧ spacedWithin window ch'
  end.

(** The instant of the last event of a burst. *)
Definition lastArrival (ch : list Offer) : N :=
  match last ch with Some o => arrival o | None => 0%N end.

(** The quiet-period reading of the collector: a burst whose events are
    less than a window apart, followed by silence, comes back as one batch,
    and not before a full window of silence has gone by. *)
Definition quietPeriodCollector (burst : list Offer) : Prop :=
  spacedWithin debouncePeriod burst →
  ∀ coin, ∃ c,
    nextBatch coin 0 burst = Some c
    ∧ events c = map payload burst
    ∧ (lastArrival burst + debouncePeriod ≤ returned c)%N.

End Collector.

Arguments Offer : clear implicits.
Arguments Collected : clear implicits.

End Debounce.

(** ** Vocabulary of the statements *)

(** The file names of the paths of a batch that lie in directory [dir], in
    batch order. *)
Definition filesIn (dir : string) (filenames : list string) : list string :=
  omap (λ path, if decide ((splitPath path).1 = dir)
                then Some (splitPath path).2 else None) filenames.

(** The batch without its paths in directory [dir]. *)
Definition withoutDir (dir : string) (filenames : list string) : list string :=
  filter (λ path, (splitPath path).1 ≠ dir) filenames.

(** [Q] imports [D], in production or in test code, and [D] begins with the
    path of [Q]'s module. *)
Definition dependsOn (deref : ptr → Package) (Q : ptr) (D : string) : Prop :=
  strings_HasPrefix D (Path (Module_ (deref Q))) = true
  ∧ (D ∈ Deps (deref Q) ∨ D ∈ TestImports (deref Q) ∨ D ∈ XTestImports (deref Q)).

(** A snapshot as the data model describes it: every package is stored under
    its own directory, and its production dependencies form a set (no import
    path is listed twice). *)
Definition snapshot (deref : ptr → Package) (pkgs : gmap string ptr) : Prop :=
  ∀ dir p, pkgs !! dir = Some p →
    Dir (deref p) = dir ∧ NoDup (Deps (deref p)).

(** Test-file isolation, as C4 states it: when some changed file of [Q]'s
    directory is left after removing the ignored ones, every file left is a
    test or external-test file of [Q], and [Q] has tests, a batch confined
    to that directory resolves to exactly [Q], however many packages depend
    on [Q]. *)
Definition testFileIsolation (deref : ptr → Package) (pkgs : gmap string ptr)
    (revdeps : gmap string (list ptr)) (filenames : list string)
    (dir : string) (Q : ptr) : Prop :=
  pkgs !! dir = Some Q →
  (∀ path, path ∈ filenames → (splitPath path).1 = dir) →
  (∃ f, f ∈ filesIn dir filenames ∧ f ∉ IgnoredGoFiles (deref Q)) →
  (∀ f, f ∈ filesIn dir filenames → f ∉ IgnoredGoFiles (deref Q) →
        isTestFile deref Q f = true) →
  hasNoTests deref Q = false →
  resolve deref pkgs revdeps filenames = [ImportPath (deref Q)].

(** ** A sample workspace

    Module [example.com/app] with [core] (no dependencies, has tests),
    [api] (depends on [core], has tests), [cmd] (depends on [api], no
    tests), [leaf] (has tests, nothing depends on it) and [util] (an
    external test package [util_test] that imports [util] itself). *)

Module Sample.

Definition app : ModuleInfo := {| Path := "example.com/app" |}.

Definition core : Package :=
  {| Dir := "/src/app/core"; ImportPath := "example.com/app/core";
     Deps := ["fmt"]; GoFiles := ["core.go"];
     IgnoredGoFiles := ["core_windows.go"]; TestGoFiles := ["core_test.go"];
     XTestGoFiles := []; EmbedFiles := []; TestImports := ["testing"];
     XTestImports := []; Module_ := app |}.

Definition api : Package :=
  {| Dir := "/src/app/api"; ImportPath := "example.com/app/api";
     Deps := ["example.com/app/core"; "fmt"]; GoFiles := ["api.go"];
     IgnoredGoFiles := []; TestGoFiles := ["api_test.go"];
     XTestGoFiles := []; EmbedFiles := []; TestImports := ["testing"];
     XTestImports := []; Module_ := app |}.

Definition cmd : Package :=
  {| Dir := "/src/app/cmd"; ImportPath := "example.com/app/cmd";
     Deps := ["example.com/app/api"; "fmt"]; GoFiles := ["main.go"];
     IgnoredGoFiles := []; TestGoFiles := []; XTestGoFiles := [];
     EmbedFiles := []; TestImports := []; XTestImports := [];
     Module_ := app |}.

Definition leaf : Package :=
  {| Dir := "/src/app/leaf"; ImportPath := "example.com/app/leaf";
     Deps := ["fmt"]; GoFiles := ["leaf.go"];
     IgnoredGoFiles := []; TestGoFiles := ["leaf_test.go"];
     XTestGoFiles := []; EmbedFiles := []; TestImports := ["testing"];
     XTestImports := []; Module_ := app |}.

Definition util : Package :=
  {| Dir := "/src/app/util"; ImportPath := "example.com/app/util";
     Deps := ["strings"]; GoFiles := ["util.go"];
     IgnoredGoFiles := []; TestGoFiles := [];
     XTestGoFiles := ["util_test.go"]; EmbedFiles := []; TestImports := [];
     XTestImports := ["example.com/app/util"; "testing"]; Module_ := app |}.

Definition decoded : list Package := [core; api; cmd; leaf; util].

Definition store : ptr → Package := loadPackages_store decoded.
Definition pkgs : gmap string ptr := loadPackages decoded.
Definition revdeps : gmap string (list ptr) := buildRevdeps store pkgs.

(** An executor under which every test run succeeds. *)
Definition passing : list string → option string := λ _, None.

(** A package whose production dependencies name [core] twice. *)
Definition twice : Package :=
  {| Dir := "/src/app/twice"; ImportPath := "example.com/app/twice";
     Deps := ["example.com/app/core"; "example.com/app/core"];
     GoFiles := ["twice.go"]; IgnoredGoFiles := []; TestGoFiles := [];
     XTestGoFiles := []; EmbedFiles := []; TestImports := [];
     XTestImports := []; Module_ := app |}.

(** Three saves 150 ms apart. *)
Definition burst3 : list (Debounce.Offer string) :=
  [ {| Debounce.arrival := 0; Debounce.payload := "/src/app/core/core.go" |};
    {| Debounce.arrival := 150 * Debounce.Millisecond; Debounce.payload := "/src/app/api/api.go" |};
    {| Debounce.arrival := 300 * Debounce.Millisecond; Debounce.payload := "/src/app/cmd/main.go" |} ]%N.

End Sample.

(** ** The rest of the program *)

(** *** [loadPackages], with its failures *)

(** One answer of [d.Decode(pkg)]: a package, or an error other than
    [io.EOF]. A stream of documents is the list of the answers given before
    [io.EOF]. *)
Inductive Document :=
  | Valid (pkg : Package)
  | Malformed (err : string).

(** The decoding loop of [loadPackages]: the package decoded by the i-th
    call is allocated at address [i]. *)
Fixpoint loadPackages_decode (next : ptr) (docs : list Document)
    (pkgs : gmap string ptr) : string + gmap string ptr :=
  match docs with
  | [] => inr pkgs
  | Malformed err :: _ => inl ("failed to decode JSON: " +:+ err)
  | Valid pkg :: docs' =>
      loadPackages_decode (S next) docs' (<[Dir pkg := next]> pkgs)
  end.

(** [loadPackages], given what [cmd.Output()] answered: an error, or an
    output that decodes as the stream [docs]. *)
Definition loadPackages_run (output : string + list Document)
    : string + gmap string ptr :=
  match output with
  | inl err => inl ("failed to run `go list -json ./...`: " +:+ err)
  | inr docs => loadPackages_decode 0 docs ∅
  end.

(** The packages of a stream, in order. *)
Definition validPackages (docs : list Document) : list Package :=
  omap (λ doc, match doc with Valid pkg => Some pkg | Malformed _ => None end) docs.

(** *** The first revision: one test run per event *)

Module V1.

Section PerEvent.

Variable deref : ptr → Package.
Variable go : list string → option string.

(** [runTests] of the first revision. *)
Definition runTests (pkg : ptr) (revdeps : list ptr) (filename : string) : Outcome :=
  if (length revdeps =? 0)%nat then
    {| printed := ["No affected tests to run"]; executed := None; failure := None |}
  else if slices_Contains (IgnoredGoFiles (deref pkg)) filename then
    {| printed := ["File is excluded by build constraints"];
       executed := None; failure := None |}
  else
    let revdeps :=
      if slices_Contains (TestGoFiles (deref pkg)) filename
         || slices_Contains (XTestGoFiles (deref pkg)) filename
      then [pkg]
      else revdeps ++ [pkg] in
    let revdeps := slices_DeleteFunc revdeps (hasNoTests deref) in
    let paths := map (λ pkg, ImportPath (deref pkg)) revdeps in
    if (length revdeps =? 0)%nat then
      {| printed := ["No affected tests to run"]; executed := None; failure := None |}
    else
      let banner :=
        if (length revdeps =? 1)%nat then "Running tests in 1 package..."
        else "Running tests in " +:+ pretty (length revdeps) +:+ " packages..." in
      let args := "test" :: paths in
      match go args with
      | Some err => {| printed := [banner]; executed := Some args; failure := Some err |}
      | None =>
          {| printed := [banner; "Tests passed"]; executed := Some args; failure := None |}
      end.

(** The body of the loop [for event := range w.Events] of the first
    revision, for the event named [name]. The loop goes on after a failed
    run, so the outcome carries no error. *)
Definition run_event (pkgs : gmap string ptr) (revdeps : gmap string (list ptr))
    (name : string) : Outcome :=
  let '(dir, filename) := splitPath name in
  match pkgs !! dir with
  | None =>
      {| printed := [name +:+ " changed";
                     "unknown package " +:+ dir +:+ " (from " +:+ name +:+ ")"];
         executed := None; failure := None |}
  | Some pkg =>
      let o := runTests pkg (revdeps !!! ImportPath (deref pkg)) filename in
      {| printed := [name +:+ " changed"] ++ printed o
                    ++ match failure o with
                       | Some err => ["Tests failed: " +:+ err]
                       | None => []
                       end ++ [""];
         executed := executed o; failure := None |}
  end.

End PerEvent.

End V1.

(** The import paths given to [go test] in an outcome. *)
Definition arguments (o : Outcome) : list string :=
  match executed o with
  | Some (_ :: paths) => paths
  | _ => []
  end.

(** *** The loop of [run] *)

Module Loop.

Section Batches.

Context {T : Type}.

(** The loop [for event := range w.Events] of [run], as far as batching
    goes: the successive batches it hands to [runAllTests]. The i-th turn
    uses the picks [coins i]; handling the batch [b] keeps the loop busy
    for [busy b], and the next turn starts when that is over. A turn takes
    at least one offer off the channel, so [fuel] turns are enough for a
    channel of [fuel] offers; with nothing left to receive the loop waits
    for ever and hands over nothing more. *)
Fixpoint run_loop (fuel : nat) (coins : nat → nat → bool) (busy : list T → N)
    (now : N) (ch : list (Debounce.Offer T)) : list (list T) :=
  match fuel with
  | O => []
  | S fuel' =>
      match Debounce.nextBatch (coins O) now ch with
      | None => []
      | Some c =>
          Debounce.events c
          :: run_loop fuel' (λ i, coins (S i)) busy
               (Debounce.returned c + busy (Debounce.events c))%N
               (Debounce.remaining c)
      end
  end.

Definition run_batches (coins : nat → nat → bool) (busy : list T → N)
    (now : N) (ch : list (Debounce.Offer T)) : list (list T) :=
  run_loop (length ch) coins busy now ch.

(** The offers of a channel are in the order of their instants. *)
Definition chronological (ch : list (Debounce.Offer T)) : Prop :=
  StronglySorted (λ o o', (Debounce.arrival o ≤ Debounce.arrival o')%N) ch.

End Batches.

End Loop.

(** Whether a string holds a slash. *)
Fixpoint hasSlash (s : string) : bool :=
  match s with
  | EmptyString => false
  | String c s' => Ascii.eqb c "/" || hasSlash s'
  end.

(** No key of an index holds an empty list. *)
Definition listsNonEmpty (r : gmap string (list ptr)) : Prop :=
  ∀ D, r !! D ≠ Some [].

(** * Properties *)

(** ** Library functions *)

Example Split_abs : filepath_Split "/m/core/a.go" = ("/m/core/", "a.go").
Proof. reflexivity. Qed.

Example Split_bare : filepath_Split "a.go" = ("", "a.go").
Proof. reflexivity. Qed.

Example Trim_dir : strings_TrimSuffix_slash "/m/core/" = "/m/core".
Proof. reflexivity. Qed.

Example Trim_none : strings_TrimSuffix_slash "/m/core" = "/m/core".
Proof. reflexivity. Qed.

Example Sort_Compact_ex :
  slices_Compact (slices_Sort ["m/b"; "m/a"; "m/b"; "m"]) = ["m"; "m/a"; "m/b"].
Proof. vm_compute. reflexivity. Qed.

Example HasPrefix_ex :
  strings_HasPrefix "example.com/app/core" "example.com/app" = true.
Proof. reflexivity. Qed.

Example sample_revdeps :
  Sample.revdeps !!! "example.com/app/core" = [1]
  ∧ Sample.revdeps !!! "example.com/app/api" = [2]
  ∧ Sample.revdeps !!! "example.com/app/leaf" = []
  ∧ Sample.revdeps !!! "example.com/app/util" = [4].
Proof. vm_compute. done. Qed.

Example sample_core_change :
  resolve Sample.store Sample.pkgs Sample.revdeps ["/src/app/core/core.go"]
  = ["example.com/app/api"; "example.com/app/core"].
Proof. vm_compute. reflexivity. Qed.

Example sample_api_test_change :
  resolve Sample.store Sample.pkgs Sample.revdeps ["/src/app/api/api_test.go"]
  = ["example.com/app/api"].
Proof. vm_compute. reflexivity. Qed.

Example sample_leaf_change :
  resolve Sample.store Sample.pkgs Sample.revdeps ["/src/app/leaf/leaf.go"] = [].
Proof. vm_compute. reflexivity. Qed.

Section GoLibFacts.

Context {A : Type} `{EqDecision A}.

Lemma slices_Contains_true (s : list A) (v : A) :
  slices_Contains s v = true ↔ v ∈ s.
Proof. unfold slices_Contains. apply bool_decide_eq_true. Qed.

Lemma slices_Contains_false (s : list A) (v : A) :
  slices_Contains s v = false ↔ v ∉ s.
Proof. unfold slices_Contains. apply bool_decide_eq_false. Qed.

Lemma elem_of_DeleteFunc (s : list A) (del : A → bool) (x : A) :
  x ∈ slices_DeleteFunc s del ↔ x ∈ s ∧ del x = false.
Proof.
  induction s as [|y s IH]; simpl.
  - split; [intros Hx | intros [Hx _]]; by apply elem_of_nil in Hx.
  - destruct (del y) eqn:Hy.
    + rewrite IH, elem_of_cons. split; [tauto|].
      intros [[->|Hx] Hd]; [congruence | tauto].
    + rewrite !elem_of_cons, IH. split; [|tauto].
      intros [->|[Hx Hd]]; tauto.
Qed.

Lemma DeleteFunc_app (s t : list A) (del : A → bool) :
  slices_DeleteFunc (s ++ t) del = slices_DeleteFunc s del ++ slices_DeleteFunc t del.
Proof.
  induction s as [|y s IH]; simpl; [done|].
  destruct (del y); by rewrite IH.
Qed.

Lemma DeleteFunc_nil_iff (s : list A) (del : A → bool) :
  slices_DeleteFunc s del = [] ↔ ∀ x, x ∈ s → del x = true.
Proof.
  induction s as [|y s IH]; simpl.
  - split; [intros _ x Hx; by apply elem_of_nil in Hx | done].
  - destruct (del y) eqn:Hy.
    + rewrite IH. split.
      * intros Hs x [->|Hx]%elem_of_cons; auto.
      * intros Hs x Hx. apply Hs. by right.
    + split; [done|]. intros Hs. rewrite Hs in Hy; [done | by left].
Qed.

Lemma allFunc_true (s : list A) (f : A → bool) :
  allFunc s f = true ↔ ∀ x, x ∈ s → f x = true.
Proof.
  induction s as [|y s IH]; simpl.
  - split; [intros _ x Hx; by apply elem_of_nil in Hx | done].
  - destruct (f y) eqn:Hy; simpl.
    + rewrite IH. split.
      * intros Hs x [->|Hx]%elem_of_cons; auto.
      * intros Hs x Hx. apply Hs. by right.
    + split; [done|]. intros Hs. rewrite Hs in Hy; [done | by left].
Qed.

Lemma elem_of_Compact (s : list A) (x : A) :
  x ∈ slices_Compact s ↔ x ∈ s.
Proof.
  induction s as [|y s IH]; [done|].
  destruct s as [|z s]; [done|].
  change (slices_Compact (y :: z :: s))
    with (if decide (y = z) then slices_Compact (z :: s) else y :: slices_Compact (z :: s)).
  destruct (decide (y = z)) as [->|Hne].
  - rewrite IH, !elem_of_cons. tauto.
  - rewrite elem_of_cons, IH, !elem_of_cons. tauto.
Qed.

End GoLibFacts.

(** The order of Go strings. *)

Lemma string_le_alt (a b : string) :
  string_le a b ↔ a = b ∨ String_as_OT.lt a b.
Proof.
  unfold string_le.
  destruct (String_as_OT.compare_spec a b) as [Heq|Hlt|Hgt].
  - split; [by left | done].
  - split; [by right | done].
  - split; [done|]. intros [->|Hlt].
    + by apply (StrictOrder_Irreflexive (R:=String_as_OT.lt)) in Hgt.
    + exfalso. apply (StrictOrder_Irreflexive (R:=String_as_OT.lt) a).
      by transitivity b.
Qed.

#[local] Instance string_le_total : Total string_le.
Proof.
  intros a b. rewrite !string_le_alt.
  destruct (String_as_OT.compare_spec a b); auto.
Qed.

#[local] Instance string_le_trans : Transitive string_le.
Proof.
  intros a b c. rewrite !string_le_alt.
  intros [->|Hab] [->|Hbc]; auto. right. by transitivity b.
Qed.

#[local] Instance string_lt_antisymm : AntiSymm (=) String_as_OT.lt.
Proof.
  intros a b Hab Hba. exfalso.
  apply (StrictOrder_Irreflexive (R:=String_as_OT.lt) a). by transitivity b.
Qed.

Lemma elem_of_Sort (paths : list string) (x : string) :
  x ∈ slices_Sort paths ↔ x ∈ paths.
Proof. unfold slices_Sort. by rewrite merge_sort_Permutation. Qed.

Lemma Sort_sorted (paths : list string) :
  StronglySorted string_le (slices_Sort paths).
Proof. apply StronglySorted_merge_sort; apply _. Qed.

Lemma Compact_strictly_sorted (s : list string) :
  StronglySorted string_le s → StronglySorted String_as_OT.lt (slices_Compact s).
Proof.
  induction 1 as [|y s Hs IH Hy]; [constructor|].
  destruct s as [|z s]; [repeat constructor|].
  change (slices_Compact (y :: z :: s))
    with (if decide (y = z) then slices_Compact (z :: s) else y :: slices_Compact (z :: s)).
  destruct (decide (y = z)) as [->|Hne]; [done|].
  constructor; [done|].
  apply Forall_forall. intros x Hx. apply (proj1 (elem_of_Compact _ _)) in Hx.
  rewrite Forall_forall in Hy.
  assert (Hyz : String_as_OT.lt y z).
  { destruct (proj1 (string_le_alt y z)) as [?|?]; [apply Hy; by left | done | done]. }
  destruct (proj1 (string_le_alt y x) (Hy x Hx)) as [<-|Hlt]; [|done].
  apply StronglySorted_inv in Hs as [_ Hz]. rewrite Forall_forall in Hz.
  apply elem_of_cons in Hx as [->|Hx]; [done|].
  destruct (proj1 (string_le_alt z y) (Hz y Hx)) as [->|Hlt]; [done|].
  exfalso. apply (StrictOrder_Irreflexive (R:=String_as_OT.lt) y). by transitivity z.
Qed.

Lemma strictly_sorted_NoDup (s : list string) :
  StronglySorted String_as_OT.lt s → NoDup s.
Proof.
  induction 1 as [|y s Hs IH Hy]; constructor; [|done].
  intros Hin. rewrite Forall_forall in Hy.
  by apply (StrictOrder_Irreflexive (R:=String_as_OT.lt) y), Hy.
Qed.

(** Sorting then compacting yields a list that only depends on the set of
    elements of its input. *)
Lemma Compact_Sort_canonical (l1 l2 : list string) :
  (∀ x, x ∈ l1 ↔ x ∈ l2) →
  slices_Compact (slices_Sort l1) = slices_Compact (slices_Sort l2).
Proof.
  intros Hsame.
  apply (StronglySorted_unique String_as_OT.lt);
    try (apply Compact_strictly_sorted, Sort_sorted).
  apply NoDup_Permutation;
    try (apply strictly_sorted_NoDup, Compact_strictly_sorted, Sort_sorted).
  intros x. by rewrite !elem_of_Compact, !elem_of_Sort.
Qed.

(** ** The resolver *)

Section ResolverFacts.

Variable deref : ptr → Package.
Variable go : list string → option string.

Implicit Types (pkg q : ptr) (pkgs : gmap string ptr)
  (revdeps : gmap string (list ptr)) (filenames files : list string).


(** *** [testsToRun], case by case *)

Lemma length_eqb_0 {X} (l : list X) : (length l =? 0)%nat = true ↔ l = [].
Proof. destruct l; simpl; split; done. Qed.

Lemma testsToRun_no_dependents pkg files : testsToRun deref pkg [] files = [].
Proof. done. Qed.

Lemma testsToRun_nothing_left pkg (rd : list ptr) files :
  (∀ f, f ∈ files → f ∈ IgnoredGoFiles (deref pkg)) →
  testsToRun deref pkg rd files = [].
Proof.
  intros Hign. unfold testsToRun.
  destruct (length rd =? 0)%nat; [done|].
  assert (slices_DeleteFunc files (isIgnored deref pkg) = []) as ->; [|done].
  apply DeleteFunc_nil_iff. intros f Hf. by apply slices_Contains_true, Hign.
Qed.

Lemma testsToRun_tests_only pkg (rd : list ptr) files :
  rd ≠ [] →
  (∃ f, f ∈ files ∧ f ∉ IgnoredGoFiles (deref pkg)) →
  (∀ f, f ∈ files → f ∉ IgnoredGoFiles (deref pkg) → isTestFile deref pkg f = true) →
  testsToRun deref pkg rd files = [pkg].
Proof.
  intros Hrd (f & Hf & Hnot) Htests. unfold testsToRun.
  destruct (length rd =? 0)%nat eqn:E; [by apply length_eqb_0 in E|].
  destruct (length (slices_DeleteFunc files (isIgnored deref pkg)) =? 0)%nat eqn:E'.
  { apply length_eqb_0 in E'. rewrite DeleteFunc_nil_iff in E'.
    apply E', slices_Contains_true in Hf. done. }
  assert (allFunc (slices_DeleteFunc files (isIgnored deref pkg)) (isTestFile deref pkg) = true) as ->; [|done].
  apply allFunc_true. intros x [Hx Hi]%elem_of_DeleteFunc.
  apply Htests; [done|]. by apply slices_Contains_false.
Qed.

Lemma testsToRun_production pkg (rd : list ptr) files :
  rd ≠ [] →
  (∃ f, f ∈ files ∧ (f ∉ IgnoredGoFiles (deref pkg)) ∧ isTestFile deref pkg f = false) →
  testsToRun deref pkg rd files = rd ++ [pkg].
Proof.
  intros Hrd (f & Hf & Hnot & Hprod). unfold testsToRun.
  destruct (length rd =? 0)%nat eqn:E; [by apply length_eqb_0 in E|].
  assert (f ∈ slices_DeleteFunc files (isIgnored deref pkg)) as Hkept.
  { apply elem_of_DeleteFunc. split; [done|]. by apply slices_Contains_false. }
  destruct (length (slices_DeleteFunc files (isIgnored deref pkg)) =? 0)%nat eqn:E'.
  { apply length_eqb_0 in E'. rewrite E' in Hkept. by apply elem_of_nil in Hkept. }
  destruct (allFunc (slices_DeleteFunc files (isIgnored deref pkg)) (isTestFile deref pkg)) eqn:Hall; [|done].
  rewrite allFunc_true in Hall. apply Hall in Hkept. congruence.
Qed.

Lemma testsToRun_nil_files pkg (rd : list ptr) : testsToRun deref pkg rd [] = [].
Proof. by apply testsToRun_nothing_left; intros f Hf; apply elem_of_nil in Hf. Qed.

(** The result only depends on which file names are in the group, not on
    their order or multiplicity. *)
Lemma testsToRun_ext pkg (rd : list ptr) files files' :
  (∀ f, f ∈ files ↔ f ∈ files') →
  testsToRun deref pkg rd files = testsToRun deref pkg rd files'.
Proof.
  intros Hsame. unfold testsToRun.
  destruct (length rd =? 0)%nat; [done|].
  assert (Hkept : ∀ f, f ∈ slices_DeleteFunc files (isIgnored deref pkg)
                       ↔ f ∈ slices_DeleteFunc files' (isIgnored deref pkg)).
  { intros f. by rewrite !elem_of_DeleteFunc, Hsame. }
  assert ((length (slices_DeleteFunc files (isIgnored deref pkg)) =? 0)%nat
          = (length (slices_DeleteFunc files' (isIgnored deref pkg)) =? 0)%nat) as ->.
  { apply eq_true_iff_eq. rewrite !length_eqb_0.
    split; intros E; apply elem_of_nil_inv; intros f Hf;
      apply Hkept in Hf; rewrite E in Hf; by apply elem_of_nil in Hf. }
  assert (allFunc (slices_DeleteFunc files (isIgnored deref pkg)) (isTestFile deref pkg)
          = allFunc (slices_DeleteFunc files' (isIgnored deref pkg)) (isTestFile deref pkg)) as ->; [|done].
  apply eq_true_iff_eq. rewrite !allFunc_true.
  split; intros Hall f Hf; apply Hall, Hkept, Hf.
Qed.

(** *** The two loops of [runAllTests] *)

Lemma collectDir_app pkgs revdeps (toRun : list ptr) entry :
  collectDir deref pkgs revdeps toRun entry = toRun ++ collectDir deref pkgs revdeps [] entry.
Proof. unfold collectDir. destruct (pkgs !! entry.1); [done | by rewrite app_nil_r]. Qed.

Lemma collectAll_from pkgs revdeps (toRun : list ptr) order :
  foldl (collectDir deref pkgs revdeps) toRun order
  = toRun ++ foldl (collectDir deref pkgs revdeps) [] order.
Proof.
  revert toRun. induction order as [|e order IH]; intros toRun; simpl.
  - by rewrite app_nil_r.
  - rewrite IH, (IH (collectDir deref _ _ [] e)), collectDir_app. by rewrite app_assoc.
Qed.

Lemma collectAll_cons pkgs revdeps entry order :
  collectAll deref pkgs revdeps (entry :: order)
  = collectDir deref pkgs revdeps [] entry ++ collectAll deref pkgs revdeps order.
Proof. unfold collectAll. simpl. by rewrite collectAll_from. Qed.

Lemma elem_of_collectAll pkgs revdeps order q :
  q ∈ collectAll deref pkgs revdeps order ↔
  ∃ dir files pkg, (dir, files) ∈ order ∧ pkgs !! dir = Some pkg
    ∧ q ∈ testsToRun deref pkg (revdeps !!! ImportPath (deref pkg)) files.
Proof.
  induction order as [|[d fs] order IH].
  - split; [intros Hq; by apply elem_of_nil in Hq|].
    intros (dir & files & pkg & Hin & _). by apply elem_of_nil in Hin.
  - rewrite collectAll_cons, elem_of_app, IH. unfold collectDir. simpl.
    split.
    + intros [Hq|(dir & files & pkg & Hin & Hp & Hq)].
      * destruct (pkgs !! d) as [pkg|] eqn:Hp; [|by apply elem_of_nil in Hq].
        exists d, fs, pkg. split_and!; [by left | done | done].
      * exists dir, files, pkg. split_and!; [by right | done | done].
    + intros (dir & files & pkg & Hin & Hp & Hq).
      apply elem_of_cons in Hin as [[= -> ->]|Hin].
      * left. by rewrite Hp.
      * right. by exists dir, files, pkg.
Qed.

Lemma filesIn_cons dir path filenames :
  filesIn dir (path :: filenames)
  = if decide ((splitPath path).1 = dir)
    then (splitPath path).2 :: filesIn dir filenames
    else filesIn dir filenames.
Proof. unfold filesIn. simpl. by destruct (decide _). Qed.

(** The first loop, entry by entry. *)
Lemma groupByDir_from (byDir : gmap string (list string)) filenames dir :
  foldl (λ byDir filename,
           let '(dir, filename) := splitPath filename in
           <[dir := byDir !!! dir ++ [filename]]> byDir) byDir filenames !! dir
  = if decide (filesIn dir filenames = []) then byDir !! dir
    else Some (byDir !!! dir ++ filesIn dir filenames).
Proof.
  revert byDir. induction filenames as [|path filenames IH]; intros byDir; [done|].
  cbn [foldl]. rewrite IH, filesIn_cons.
  destruct (splitPath path) as [d f]. cbn [fst snd].
  destruct (decide (d = dir)) as [->|Hne].
  - rewrite lookup_total_insert_eq, lookup_insert_eq.
    rewrite (decide_False (P := f :: _ = [])) by done.
    destruct (decide (filesIn dir filenames = [])) as [->|_]; [done|].
    by rewrite <- app_assoc.
  - by rewrite lookup_insert_ne, lookup_total_insert_ne.
Qed.

Lemma groupByDir_lookup filenames dir :
  groupByDir filenames !! dir
  = if decide (filesIn dir filenames = []) then None else Some (filesIn dir filenames).
Proof. unfold groupByDir. rewrite groupByDir_from. by rewrite lookup_empty. Qed.

Lemma elem_of_filesIn dir filenames f :
  f ∈ filesIn dir filenames ↔ ∃ path, path ∈ filenames ∧ splitPath path = (dir, f).
Proof.
  unfold filesIn. rewrite list_elem_of_omap. split.
  - intros (path & Hin & Hsome). exists path. split; [done|].
    destruct (decide _) as [<-|]; [|done]. injection Hsome as <-.
    by destruct (splitPath path).
  - intros (path & Hin & Hsplit). exists path. split; [done|].
    rewrite Hsplit. simpl. by rewrite decide_True.
Qed.

(** Membership in the list handed to [slices.Sort], in terms of the batch. *)
Lemma elem_of_selected pkgs revdeps filenames order s :
  visits (groupByDir filenames) order →
  s ∈ map (λ q, ImportPath (deref q))
          (slices_DeleteFunc (collectAll deref pkgs revdeps order) (hasNoTests deref)) ↔
  ∃ dir pkg q, pkgs !! dir = Some pkg
    ∧ q ∈ testsToRun deref pkg (revdeps !!! ImportPath (deref pkg)) (filesIn dir filenames)
    ∧ hasNoTests deref q = false ∧ ImportPath (deref q) = s.
Proof.
  intros Hvisit. rewrite list_elem_of_fmap. split.
  - intros (q & -> & [Hq Htests]%elem_of_DeleteFunc).
    apply elem_of_collectAll in Hq as (dir & files & pkg & Hin & Hp & Hq).
    rewrite Hvisit in Hin. apply elem_of_map_to_list in Hin.
    rewrite groupByDir_lookup in Hin. destruct (decide _); [done|].
    injection Hin as <-. by exists dir, pkg, q.
  - intros (dir & pkg & q & Hp & Hq & Htests & <-).
    exists q. split; [done|]. apply elem_of_DeleteFunc. split; [|done].
    apply elem_of_collectAll. exists dir, (filesIn dir filenames), pkg.
    split_and!; [|done|done].
    rewrite Hvisit. apply elem_of_map_to_list. rewrite groupByDir_lookup.
    destruct (decide _) as [E|]; [|done].
    rewrite E, testsToRun_nil_files in Hq. by apply elem_of_nil in Hq.
Qed.

Lemma elem_of_resolve_in pkgs revdeps filenames order s :
  visits (groupByDir filenames) order →
  s ∈ resolve_in deref pkgs revdeps order ↔
  ∃ dir pkg q, pkgs !! dir = Some pkg
    ∧ q ∈ testsToRun deref pkg (revdeps !!! ImportPath (deref pkg)) (filesIn dir filenames)
    ∧ hasNoTests deref q = false ∧ ImportPath (deref q) = s.
Proof.
  intros Hvisit. unfold resolve_in, pathsOf.
  rewrite elem_of_Compact, elem_of_Sort. by apply elem_of_selected.
Qed.

Lemma visits_canonical {V} (m : gmap string V) : visits m (map_to_list m).
Proof. unfold visits. reflexivity. Qed.

End ResolverFacts.

Lemma strictly_sorted_ext (l1 l2 : list string) :
  StronglySorted String_as_OT.lt l1 → StronglySorted String_as_OT.lt l2 →
  (∀ x, x ∈ l1 ↔ x ∈ l2) → l1 = l2.
Proof.
  intros H1 H2 Hsame.
  apply (StronglySorted_unique String_as_OT.lt); [done|done|].
  apply NoDup_Permutation; [by apply strictly_sorted_NoDup..|done].
Qed.

Lemma strictly_sorted_le (l : list string) :
  StronglySorted String_as_OT.lt l → StronglySorted string_le l.
Proof.
  induction 1 as [|y s Hs IH Hy]; constructor; [done|].
  eapply Forall_impl; [exact Hy|]. intros x Hx. apply string_le_alt. by right.
Qed.

Section BatchFacts.

Variable deref : ptr → Package.

Implicit Types (pkg q : ptr) (pkgs : gmap string ptr)
  (revdeps : gmap string (list ptr)) (filenames files : list string).

Lemma resolve_in_strictly_sorted pkgs revdeps order :
  StronglySorted String_as_OT.lt (resolve_in deref pkgs revdeps order).
Proof. apply Compact_strictly_sorted, Sort_sorted. Qed.

Lemma filesIn_withoutDir dir dir' filenames :
  filesIn dir' (withoutDir dir filenames)
  = if decide (dir' = dir) then [] else filesIn dir' filenames.
Proof.
  unfold withoutDir. induction filenames as [|path filenames IH].
  - by destruct (decide _).
  - rewrite filter_cons, filesIn_cons.
    destruct (decide ((splitPath path).1 ≠ dir)) as [Hne|Heq%dec_stable].
    + rewrite filesIn_cons, IH.
      destruct (decide (dir' = dir)) as [->|]; [|done].
      by rewrite decide_False.
    + rewrite IH. destruct (decide (dir' = dir)) as [->|Hd]; [done|].
      rewrite decide_False; [done|congruence].
Qed.

(** The selection only depends on the sets involved: which paths are in the
    batch, and which packages are listed under each key of the index. *)
Lemma elem_of_testsToRun_ext pkg (rd rd' : list ptr) files files' q :
  (∀ x, x ∈ rd ↔ x ∈ rd') → (∀ f, f ∈ files ↔ f ∈ files') →
  q ∈ testsToRun deref pkg rd files ↔ q ∈ testsToRun deref pkg rd' files'.
Proof.
  intros Hrd Hfiles. rewrite (testsToRun_ext deref pkg rd files files' Hfiles).
  unfold testsToRun.
  assert (rd = [] ↔ rd' = []) as Hnil.
  { split; intros ->; apply elem_of_nil_inv; intros x Hx; apply Hrd in Hx;
      by apply elem_of_nil in Hx. }
  destruct rd as [|a rd], rd' as [|a' rd']; simpl; try done.
  - destruct Hnil as [H _]. by specialize (H eq_refl).
  - destruct Hnil as [_ H]. by specialize (H eq_refl).
  - destruct (length _ =? 0)%nat; [done|]. destruct (allFunc _ _); [done|].
    change (q ∈ (a :: rd) ++ [pkg] ↔ q ∈ (a' :: rd') ++ [pkg]).
    by rewrite !elem_of_app, Hrd.
Qed.

End BatchFacts.

(** ** Claims about the resolver *)

(** C1 (not met by the program). A package with tests on which
    nothing depends: [testsToRun] returns as soon as it sees the empty
    dependent list, before the package itself is added, so a change to one
    of its production files selects nothing. In the sample workspace,
    [leaf] has a test file and no reverse dependents, and a change to
    [leaf.go] resolves to the empty list. *)
Theorem C1_no_dependents_nothing_selected :
  (∀ deref pkg files, testsToRun deref pkg [] files = [])
  ∧ Sample.pkgs !! "/src/app/leaf" = Some 3
  ∧ Sample.store 3 = Sample.leaf
  ∧ Sample.revdeps !!! ImportPath Sample.leaf = []
  ∧ hasNoTests Sample.store 3 = false
  ∧ resolve Sample.store Sample.pkgs Sample.revdeps ["/src/app/leaf/leaf.go"] = [].
Proof. split; [done|]. vm_compute. done. Qed.

Example sample_ignored_change :
  Sample.revdeps !!! ImportPath Sample.core = [1]
  ∧ resolve Sample.store Sample.pkgs Sample.revdeps ["/src/app/core/core_windows.go"] = [].
Proof. vm_compute. done. Qed.

(** C4 (not met by the program). A change to a test file of a package on
    which nothing depends selects nothing: [testsToRun] returns on the
    empty dependent list before it looks at the files, so the branch
    "if all files are test files, then we are just running this test" is
    never reached. In the sample workspace [leaf] has the test file
    [leaf_test.go], which is not ignored, and no reverse dependent; the
    batch holding just that file resolves to the empty list, whereas the
    same edit in [core], which has a dependent, resolves to [core]. *)
Theorem C4_test_file_edit_without_dependents :
  Sample.pkgs !! "/src/app/leaf" = Some 3
  ∧ Sample.store 3 = Sample.leaf
  ∧ Sample.revdeps !!! ImportPath Sample.leaf = []
  ∧ isIgnored Sample.store 3 "leaf_test.go" = false
  ∧ isTestFile Sample.store 3 "leaf_test.go" = true
  ∧ hasNoTests Sample.store 3 = false
  ∧ resolve Sample.store Sample.pkgs Sample.revdeps ["/src/app/leaf/leaf_test.go"] = []
  ∧ resolve Sample.store Sample.pkgs Sample.revdeps ["/src/app/core/core_test.go"]
    = ["example.com/app/core"]
  ∧ ¬ testFileIsolation Sample.store Sample.pkgs Sample.revdeps
        ["/src/app/leaf/leaf_test.go"] "/src/app/leaf" 3.
Proof.
  do 8 (split; [vm_compute; reflexivity|]).
  intros Hclaim. unfold testFileIsolation in Hclaim.
  assert (resolve Sample.store Sample.pkgs Sample.revdeps
            ["/src/app/leaf/leaf_test.go"] = []) as Hnone
    by (vm_compute; reflexivity).
  rewrite Hnone in Hclaim. discriminate Hclaim.
  - vm_compute. reflexivity.
  - intros path ->%list_elem_of_singleton. vm_compute. reflexivity.
  - exists "leaf_test.go". split.
    + vm_compute. apply list_elem_of_here.
    + vm_compute. intros H. inversion H.
  - intros f Hf _. vm_compute in Hf. apply list_elem_of_singleton in Hf as ->.
    vm_compute. reflexivity.
  - vm_compute. reflexivity.
Qed.

(** The path of [testsToRun] that does reach the test-file branch. Let [Q]
    be the package of directory [dir], with at least one reverse dependent.
    If at least one changed file of [dir] is left after removing the
    ignored ones, and every file left is a test or external-test file of
    [Q], then the directory contributes exactly [Q]; [Q] then has tests,
    and a batch confined to [dir] resolves to exactly [Q]'s import path. *)
Lemma test_only_change_with_dependents (deref : ptr → Package) (pkgs : gmap string ptr)
    (revdeps : gmap string (list ptr)) (filenames : list string)
    (dir : string) (Q : ptr) :
  pkgs !! dir = Some Q →
  revdeps !!! ImportPath (deref Q) ≠ [] →
  (∃ f, f ∈ filesIn dir filenames ∧ f ∉ IgnoredGoFiles (deref Q)) →
  (∀ f, f ∈ filesIn dir filenames → f ∉ IgnoredGoFiles (deref Q) →
        isTestFile deref Q f = true) →
  testsToRun deref Q (revdeps !!! ImportPath (deref Q)) (filesIn dir filenames) = [Q]
  ∧ hasNoTests deref Q = false
  ∧ (∀ order,
       (∀ path, path ∈ filenames → (splitPath path).1 = dir) →
       visits (groupByDir filenames) order →
       resolve_in deref pkgs revdeps order = [ImportPath (deref Q)]).
Proof.
  intros HQ Hrd Hleft Htests.
  assert (testsToRun deref Q (revdeps !!! ImportPath (deref Q)) (filesIn dir filenames)
          = [Q]) as Hrun by by apply testsToRun_tests_only.
  assert (hasNoTests deref Q = false) as Hhas.
  { destruct Hleft as (f & Hf & Hnot). specialize (Htests f Hf Hnot).
    unfold isTestFile in Htests. unfold hasNoTests.
    apply orb_true_iff in Htests as [Hin|Hin]; apply slices_Contains_true in Hin.
    - destruct (TestGoFiles (deref Q)); [by apply elem_of_nil in Hin | done].
    - destruct (XTestGoFiles (deref Q)); [by apply elem_of_nil in Hin|].
      by rewrite andb_false_r. }
  split_and!; [done|done|].
  intros order Hdir Hvisit.
  apply strictly_sorted_ext.
  - apply resolve_in_strictly_sorted.
  - repeat constructor.
  - intros s. rewrite (elem_of_resolve_in deref pkgs revdeps filenames order s Hvisit).
    rewrite list_elem_of_singleton. split.
    + intros (d & pkg & q & Hp & Hq & _ & <-).
      destruct (decide (d = dir)) as [->|Hne].
      * rewrite HQ in Hp. injection Hp as <-. rewrite Hrun in Hq.
        by apply list_elem_of_singleton in Hq as ->.
      * assert (filesIn d filenames = []) as E.
        { apply elem_of_nil_inv. intros f (path & Hin & Hsplit)%elem_of_filesIn.
          apply Hdir in Hin. rewrite Hsplit in Hin. done. }
        rewrite E, testsToRun_nil_files in Hq. by apply elem_of_nil in Hq.
    + intros ->. exists dir, Q, Q. rewrite Hrun.
      split_and!; [done| by apply list_elem_of_singleton |done|done].
Qed.

Example test_only_change_in_api :
  testsToRun Sample.store 1 (Sample.revdeps !!! ImportPath (Sample.store 1))
    (filesIn "/src/app/api" ["/src/app/api/api_test.go"]) = [1]
  ∧ hasNoTests Sample.store 1 = false
  ∧ (∀ order,
       (∀ path, path ∈ ["/src/app/api/api_test.go"] → (splitPath path).1 = "/src/app/api") →
       visits (groupByDir ["/src/app/api/api_test.go"]) order →
       resolve_in Sample.store Sample.pkgs Sample.revdeps order
       = [ImportPath (Sample.store 1)]).
Proof.
  apply (test_only_change_with_dependents Sample.store Sample.pkgs Sample.revdeps
           ["/src/app/api/api_test.go"] "/src/app/api" 1).
  - vm_compute. reflexivity.
  - vm_compute. discriminate.
  - exists "api_test.go". split.
    + vm_compute. apply list_elem_of_singleton. reflexivity.
    + vm_compute. intros H. inversion H.
  - intros f Hf _. vm_compute in Hf. apply list_elem_of_singleton in Hf as ->.
    vm_compute. reflexivity.
Defined.

(** C5. Whatever the batch, every package that survives the filter of
    [runAllTests] has a test file or an external-test file, and every import
    path in the final result is that of a collected package that has one;
    a package without tests that was collected as a reverse dependent is
    dropped. *)
Theorem C5_no_tests_never_selected (deref : ptr → Package) (pkgs : gmap string ptr)
    (revdeps : gmap string (list ptr)) (order : list (string * list string)) :
  (∀ q, q ∈ slices_DeleteFunc (collectAll deref pkgs revdeps order) (hasNoTests deref) →
        TestGoFiles (deref q) ≠ [] ∨ XTestGoFiles (deref q) ≠ [])
  ∧ (∀ s, s ∈ resolve_in deref pkgs revdeps order →
        ∃ q, q ∈ collectAll deref pkgs revdeps order
             ∧ ImportPath (deref q) = s
             ∧ (TestGoFiles (deref q) ≠ [] ∨ XTestGoFiles (deref q) ≠ [])).
Proof.
  assert (∀ q, hasNoTests deref q = false →
               TestGoFiles (deref q) ≠ [] ∨ XTestGoFiles (deref q) ≠ []) as Hhas.
  { intros q. unfold hasNoTests.
    destruct (TestGoFiles (deref q)); [|by left].
    destruct (XTestGoFiles (deref q)); [done | by right]. }
  split.
  - intros q [_ Hq]%elem_of_DeleteFunc. by apply Hhas.
  - intros s. unfold resolve_in, pathsOf.
    rewrite elem_of_Compact, elem_of_Sort, list_elem_of_fmap.
    intros (q & -> & [Hin Hq]%elem_of_DeleteFunc).
    exists q. split_and!; [done|done|by apply Hhas].
Qed.

Lemma C5_witness :
  2 ∈ collectAll Sample.store Sample.pkgs Sample.revdeps
        (map_to_list (groupByDir ["/src/app/api/api.go"]))
  ∧ hasNoTests Sample.store 2 = true
  ∧ ∃ q, q ∈ collectAll Sample.store Sample.pkgs Sample.revdeps
               (map_to_list (groupByDir ["/src/app/api/api.go"]))
         ∧ ImportPath (Sample.store q) = "example.com/app/api"
         ∧ (TestGoFiles (Sample.store q) ≠ [] ∨ XTestGoFiles (Sample.store q) ≠ []).
Proof.
  split; [vm_compute; apply list_elem_of_here|].
  split; [vm_compute; reflexivity|].
  apply (proj2 (C5_no_tests_never_selected Sample.store Sample.pkgs Sample.revdeps
                  (map_to_list (groupByDir ["/src/app/api/api.go"])))).
  vm_compute. apply list_elem_of_here.
Defined.

(** C6. If every changed file of [Q]'s directory is one of [Q]'s ignored
    files, the directory contributes nothing, whatever the reverse
    dependents of [Q]: [testsToRun] returns the empty list for it and the
    batch resolves to the same paths as the batch without that directory's
    files. *)
Theorem C6_ignored_files_contribute_nothing (deref : ptr → Package)
    (pkgs : gmap string ptr) (revdeps : gmap string (list ptr))
    (filenames : list string) (dir : string) (Q : ptr)
    (order order' : list (string * list string)) :
  pkgs !! dir = Some Q →
  (∀ f, f ∈ filesIn dir filenames → f ∈ IgnoredGoFiles (deref Q)) →
  visits (groupByDir filenames) order →
  visits (groupByDir (withoutDir dir filenames)) order' →
  testsToRun deref Q (revdeps !!! ImportPath (deref Q)) (filesIn dir filenames) = []
  ∧ resolve_in deref pkgs revdeps order = resolve_in deref pkgs revdeps order'.
Proof.
  intros HQ Hign Hvisit Hvisit'.
  assert (testsToRun deref Q (revdeps !!! ImportPath (deref Q)) (filesIn dir filenames)
          = []) as Hrun by by apply testsToRun_nothing_left.
  split; [done|].
  unfold resolve_in, pathsOf. apply Compact_Sort_canonical. intros s.
  rewrite (elem_of_selected deref pkgs revdeps filenames order s Hvisit).
  rewrite (elem_of_selected deref pkgs revdeps _ order' s Hvisit').
  split; intros (d & pkg & q & Hp & Hq & Hrest); exists d, pkg, q;
    (split; [done|]); (split; [|done]); rewrite filesIn_withoutDir in *;
    destruct (decide (d = dir)) as [->|Hne]; try done.
  - rewrite HQ in Hp. injection Hp as <-. rewrite Hrun in Hq.
    by apply elem_of_nil in Hq.
  - rewrite testsToRun_nil_files in Hq. by apply elem_of_nil in Hq.
Qed.

Lemma C6_witness :
  testsToRun Sample.store 0 (Sample.revdeps !!! ImportPath (Sample.store 0))
    (filesIn "/src/app/core" ["/src/app/core/core_windows.go"; "/src/app/api/api.go"]) = []
  ∧ resolve Sample.store Sample.pkgs Sample.revdeps
      ["/src/app/core/core_windows.go"; "/src/app/api/api.go"]
    = resolve Sample.store Sample.pkgs Sample.revdeps ["/src/app/api/api.go"].
Proof.
  apply (C6_ignored_files_contribute_nothing Sample.store Sample.pkgs Sample.revdeps
           ["/src/app/core/core_windows.go"; "/src/app/api/api.go"] "/src/app/core" 0).
  - vm_compute. reflexivity.
  - intros f Hf. vm_compute in Hf. apply list_elem_of_singleton in Hf as ->.
    vm_compute. apply list_elem_of_here.
  - apply visits_canonical.
  - apply visits_canonical.
Defined.

(** C7. For two changed paths in distinct directories, the batch of both
    resolves to the union of what each resolves to alone: the same set of
    import paths, and, the result being sorted and compacted, the list
    obtained by sorting and compacting the two separate results together. *)
Theorem C7_batching_is_union (deref : ptr → Package) (pkgs : gmap string ptr)
    (revdeps : gmap string (list ptr)) (f1 f2 : string)
    (o12 o1 o2 : list (string * list string)) :
  (splitPath f1).1 ≠ (splitPath f2).1 →
  visits (groupByDir [f1; f2]) o12 →
  visits (groupByDir [f1]) o1 →
  visits (groupByDir [f2]) o2 →
  (∀ s, s ∈ resolve_in deref pkgs revdeps o12
        ↔ s ∈ resolve_in deref pkgs revdeps o1 ∨ s ∈ resolve_in deref pkgs revdeps o2)
  ∧ resolve_in deref pkgs revdeps o12
    = slices_Compact (slices_Sort (resolve_in deref pkgs revdeps o1
                                   ++ resolve_in deref pkgs revdeps o2)).
Proof.
  intros Hdirs H12 H1 H2.
  assert (∀ s, s ∈ resolve_in deref pkgs revdeps o12
               ↔ s ∈ resolve_in deref pkgs revdeps o1
                 ∨ s ∈ resolve_in deref pkgs revdeps o2) as Hunion.
  { intros s.
    rewrite (elem_of_resolve_in deref pkgs revdeps _ o12 s H12).
    rewrite (elem_of_resolve_in deref pkgs revdeps _ o1 s H1).
    rewrite (elem_of_resolve_in deref pkgs revdeps _ o2 s H2).
    assert (∀ d, filesIn d [f1; f2]
                 = if decide ((splitPath f1).1 = d) then filesIn d [f1] else filesIn d [f2])
      as Hsplit.
    { intros d. rewrite !filesIn_cons.
      destruct (decide ((splitPath f1).1 = d)) as [<-|Hne]; [|done].
      by rewrite decide_False. }
    split.
    - intros (d & pkg & q & Hp & Hq & Hrest). rewrite Hsplit in Hq.
      destruct (decide _); [left | right]; by exists d, pkg, q.
    - intros [(d & pkg & q & Hp & Hq & Hrest)|(d & pkg & q & Hp & Hq & Hrest)];
        exists d, pkg, q; (split; [done|]); (split; [|done]); rewrite Hsplit.
      + destruct (decide _) as [|Hne]; [done|].
        rewrite filesIn_cons, decide_False in Hq by done.
        change (filesIn d []) with (@nil string) in Hq.
        rewrite testsToRun_nil_files in Hq. by apply elem_of_nil in Hq.
      + destruct (decide _) as [<-|Hne]; [|done].
        rewrite filesIn_cons, decide_False in Hq by done.
        change (filesIn (splitPath f1).1 []) with (@nil string) in Hq.
        rewrite testsToRun_nil_files in Hq. by apply elem_of_nil in Hq. }
  split; [done|].
  apply strictly_sorted_ext.
  - apply resolve_in_strictly_sorted.
  - apply Compact_strictly_sorted, Sort_sorted.
  - intros s. by rewrite Hunion, elem_of_Compact, elem_of_Sort, elem_of_app.
Qed.

Lemma C7_witness :
  (∀ s, s ∈ resolve Sample.store Sample.pkgs Sample.revdeps
              ["/src/app/core/core.go"; "/src/app/util/util.go"]
        ↔ s ∈ resolve Sample.store Sample.pkgs Sample.revdeps ["/src/app/core/core.go"]
          ∨ s ∈ resolve Sample.store Sample.pkgs Sample.revdeps ["/src/app/util/util.go"])
  ∧ resolve Sample.store Sample.pkgs Sample.revdeps
      ["/src/app/core/core.go"; "/src/app/util/util.go"]
    = slices_Compact (slices_Sort
        (resolve Sample.store Sample.pkgs Sample.revdeps ["/src/app/core/core.go"]
         ++ resolve Sample.store Sample.pkgs Sample.revdeps ["/src/app/util/util.go"])).
Proof.
  apply (C7_batching_is_union Sample.store Sample.pkgs Sample.revdeps
           "/src/app/core/core.go" "/src/app/util/util.go").
  - vm_compute. discriminate.
  - apply visits_canonical.
  - apply visits_canonical.
  - apply visits_canonical.
Defined.

(** C8. When every path of the batch lies in a directory that is not a key
    of the package map, the result is empty and [runAllTests] prints
    "No affected tests to run", runs no command and returns no error,
    whatever the executor would have answered. *)
Theorem C8_unknown_directories (deref : ptr → Package)
    (go : list string → option string) (pkgs : gmap string ptr)
    (revdeps : gmap string (list ptr)) (filenames : list string)
    (order : list (string * list string)) :
  (∀ path, path ∈ filenames → pkgs !! (splitPath path).1 = None) →
  visits (groupByDir filenames) order →
  resolve_in deref pkgs revdeps order = []
  ∧ runAllTests_in deref go pkgs revdeps order
    = {| printed := ["No affected tests to run"]; executed := None; failure := None |}.
Proof.
  intros Hunknown Hvisit.
  assert (resolve_in deref pkgs revdeps order = []) as Hnone.
  { apply elem_of_nil_inv. intros s.
    rewrite (elem_of_resolve_in deref pkgs revdeps filenames order s Hvisit).
    intros (d & pkg & q & Hp & Hq & _).
    destruct (filesIn d filenames) as [|f fs] eqn:E.
    - rewrite testsToRun_nil_files in Hq. by apply elem_of_nil in Hq.
    - assert (f ∈ filesIn d filenames) as Hf by (rewrite E; by left).
      apply elem_of_filesIn in Hf as (path & Hin & Hsplit).
      apply Hunknown in Hin. rewrite Hsplit in Hin. simpl in Hin. congruence. }
  split; [done|]. unfold runAllTests_in. by rewrite Hnone.
Qed.

Lemma C8_witness :
  resolve Sample.store Sample.pkgs Sample.revdeps
    ["/src/app/docs/README.md"; "/tmp/scratch.go"] = []
  ∧ runAllTests Sample.store (λ _, Some "exit status 1") Sample.pkgs Sample.revdeps
      ["/src/app/docs/README.md"; "/tmp/scratch.go"]
    = {| printed := ["No affected tests to run"]; executed := None; failure := None |}.
Proof.
  apply (C8_unknown_directories Sample.store (λ _, Some "exit status 1")
           Sample.pkgs Sample.revdeps ["/src/app/docs/README.md"; "/tmp/scratch.go"]).
  - intros path Hin. apply elem_of_cons in Hin as [->|Hin];
      [|apply list_elem_of_singleton in Hin as ->]; vm_compute; reflexivity.
  - apply visits_canonical.
Defined.

(** The selected paths are the same for two runs that agree on the set of
    changed paths and, key by key, on the set of packages in the index;
    neither the order of the events, nor repeated events, nor the order in
    which the groups are visited matters. *)
Lemma resolve_in_canonical (deref : ptr → Package) (pkgs : gmap string ptr)
    (revdeps revdeps' : gmap string (list ptr)) (fs1 fs2 : list string)
    (o1 o2 : list (string * list string)) :
  (∀ path, path ∈ fs1 ↔ path ∈ fs2) →
  (∀ k q, q ∈ revdeps !!! k ↔ q ∈ revdeps' !!! k) →
  visits (groupByDir fs1) o1 →
  visits (groupByDir fs2) o2 →
  resolve_in deref pkgs revdeps o1 = resolve_in deref pkgs revdeps' o2.
Proof.
  intros Hfs Hrd H1 H2. unfold resolve_in, pathsOf.
  apply Compact_Sort_canonical. intros s.
  rewrite (elem_of_selected deref pkgs revdeps fs1 o1 s H1).
  rewrite (elem_of_selected deref pkgs revdeps' fs2 o2 s H2).
  assert (∀ d pkg q,
    q ∈ testsToRun deref pkg (revdeps !!! ImportPath (deref pkg)) (filesIn d fs1)
    ↔ q ∈ testsToRun deref pkg (revdeps' !!! ImportPath (deref pkg)) (filesIn d fs2))
    as Hsame.
  { intros d pkg q. apply elem_of_testsToRun_ext; [apply Hrd|].
    intros f. rewrite !elem_of_filesIn.
    split; intros (path & Hin & Hsplit); exists path; by rewrite ?Hfs in *. }
  split; intros (d & pkg & q & Hp & Hq & Hrest); exists d, pkg, q;
    (split; [done|]); (split; [|done]); by apply Hsame.
Qed.

Lemma dispatch_executed (go : list string → option string) (paths : list string) :
  executed (dispatch go paths)
  = if decide (paths = []) then None else Some ("test" :: paths).
Proof.
  unfold dispatch. destruct paths as [|p paths]; [done|].
  simpl. by destruct (go _).
Qed.

(** C10. The import paths handed to the executor are in ascending order
    without repetition, they are passed as ["test"; path1; ...], and they
    are determined by the set of changed paths: two runs over the same
    package map and reverse index whose batches contain the same paths, in
    any order and with any repetition, and whose loops visit the directory
    groups in any order, run the same command and have the same outcome. *)
Theorem C10_executor_arguments_canonical (deref : ptr → Package)
    (go : list string → option string) (pkgs : gmap string ptr)
    (revdeps : gmap string (list ptr)) (fs1 fs2 : list string)
    (o1 o2 : list (string * list string)) :
  (∀ path, path ∈ fs1 ↔ path ∈ fs2) →
  visits (groupByDir fs1) o1 →
  visits (groupByDir fs2) o2 →
  StronglySorted string_le (resolve_in deref pkgs revdeps o1)
  ∧ NoDup (resolve_in deref pkgs revdeps o1)
  ∧ executed (runAllTests_in deref go pkgs revdeps o1)
    = (if decide (resolve_in deref pkgs revdeps o1 = []) then None
       else Some ("test" :: resolve_in deref pkgs revdeps o1))
  ∧ resolve_in deref pkgs revdeps o1 = resolve_in deref pkgs revdeps o2
  ∧ runAllTests_in deref go pkgs revdeps o1 = runAllTests_in deref go pkgs revdeps o2.
Proof.
  intros Hfs H1 H2.
  assert (resolve_in deref pkgs revdeps o1 = resolve_in deref pkgs revdeps o2) as Heq
    by by apply (resolve_in_canonical deref pkgs revdeps revdeps fs1 fs2).
  split_and!.
  - apply strictly_sorted_le, resolve_in_strictly_sorted.
  - apply strictly_sorted_NoDup, resolve_in_strictly_sorted.
  - apply dispatch_executed.
  - done.
  - unfold runAllTests_in. by rewrite Heq.
Qed.

Lemma C10_witness :
  StronglySorted string_le
    (resolve Sample.store Sample.pkgs Sample.revdeps
       ["/src/app/core/core.go"; "/src/app/util/util.go"])
  ∧ NoDup (resolve Sample.store Sample.pkgs Sample.revdeps
             ["/src/app/core/core.go"; "/src/app/util/util.go"])
  ∧ executed (runAllTests Sample.store Sample.passing Sample.pkgs Sample.revdeps
                ["/src/app/core/core.go"; "/src/app/util/util.go"])
    = (if decide (resolve Sample.store Sample.pkgs Sample.revdeps
                    ["/src/app/core/core.go"; "/src/app/util/util.go"] = []) then None
       else Some ("test" :: resolve Sample.store Sample.pkgs Sample.revdeps
                              ["/src/app/core/core.go"; "/src/app/util/util.go"]))
  ∧ resolve Sample.store Sample.pkgs Sample.revdeps
      ["/src/app/core/core.go"; "/src/app/util/util.go"]
    = resolve Sample.store Sample.pkgs Sample.revdeps
        ["/src/app/util/util.go"; "/src/app/core/core.go"; "/src/app/util/util.go"]
  ∧ runAllTests Sample.store Sample.passing Sample.pkgs Sample.revdeps
      ["/src/app/core/core.go"; "/src/app/util/util.go"]
    = runAllTests Sample.store Sample.passing Sample.pkgs Sample.revdeps
        ["/src/app/util/util.go"; "/src/app/core/core.go"; "/src/app/util/util.go"].
Proof.
  apply (C10_executor_arguments_canonical Sample.store Sample.passing Sample.pkgs
           Sample.revdeps
           ["/src/app/core/core.go"; "/src/app/util/util.go"]
           ["/src/app/util/util.go"; "/src/app/core/core.go"; "/src/app/util/util.go"]).
  - intros path. rewrite !elem_of_cons, !elem_of_nil. tauto.
  - apply visits_canonical.
  - apply visits_canonical.
Defined.

Example sample_batch :
  runAllTests Sample.store Sample.passing Sample.pkgs Sample.revdeps
    ["/src/app/util/util.go"; "/src/app/core/core.go"; "/src/app/util/util.go"]
  = {| printed := ["Running tests in 3 packages..."; "Tests passed"];
       executed := Some ["test"; "example.com/app/api"; "example.com/app/core";
                         "example.com/app/util"];
       failure := None |}.
Proof. vm_compute. reflexivity. Qed.

(** ** The reverse dependency index *)

(** Closes goals that are propositional up to substitution of equalities. *)
Ltac settle := intuition (subst; auto; try congruence).

Section RevdepsFacts.

Variable deref : ptr → Package.

Implicit Types (pkg q : ptr) (r : gmap string (list ptr)) (D dep imp : string).

Lemma elem_of_recordDep pkg r dep D q :
  q ∈ recordDep deref pkg r dep !!! D ↔
  q ∈ r !!! D
  ∨ (q = pkg ∧ D = dep ∧ strings_HasPrefix dep (Path (Module_ (deref pkg))) = true).
Proof.
  unfold recordDep. destruct (strings_HasPrefix _ _); [|settle].
  destruct (decide (dep = D)) as [->|Hne].
  - rewrite lookup_total_insert_eq, elem_of_app, list_elem_of_singleton. settle.
  - rewrite lookup_total_insert_ne by done. settle.
Qed.

Lemma elem_of_recordTestDep pkg r imp D q :
  q ∈ recordTestDep deref pkg r imp !!! D ↔
  q ∈ r !!! D
  ∨ (q = pkg ∧ D = imp ∧ strings_HasPrefix imp (Path (Module_ (deref pkg))) = true).
Proof.
  unfold recordTestDep. destruct (strings_HasPrefix _ _); simpl; [|settle].
  destruct (slices_Contains (r !!! imp) pkg) eqn:Hc; simpl.
  - apply slices_Contains_true in Hc. settle.
  - destruct (decide (imp = D)) as [->|Hne].
    + rewrite lookup_total_insert_eq, elem_of_app, list_elem_of_singleton. settle.
    + rewrite lookup_total_insert_ne by done. settle.
Qed.

Lemma elem_of_foldl_recordDep pkg deps r D q :
  q ∈ foldl (recordDep deref pkg) r deps !!! D ↔
  q ∈ r !!! D
  ∨ (q = pkg ∧ D ∈ deps ∧ strings_HasPrefix D (Path (Module_ (deref pkg))) = true).
Proof.
  revert r. induction deps as [|dep deps IH]; intros r; simpl.
  - rewrite elem_of_nil. settle.
  - rewrite IH, elem_of_recordDep, elem_of_cons. settle.
Qed.

Lemma elem_of_foldl_recordTestDep pkg imps r D q :
  q ∈ foldl (recordTestDep deref pkg) r imps !!! D ↔
  q ∈ r !!! D
  ∨ (q = pkg ∧ D ∈ imps ∧ strings_HasPrefix D (Path (Module_ (deref pkg))) = true).
Proof.
  revert r. induction imps as [|imp imps IH]; intros r; simpl.
  - rewrite elem_of_nil. settle.
  - rewrite IH, elem_of_recordTestDep, elem_of_cons. settle.
Qed.

Lemma elem_of_recordPackage r pkg D q :
  q ∈ recordPackage deref r pkg !!! D ↔ q ∈ r !!! D ∨ (q = pkg ∧ dependsOn deref pkg D).
Proof.
  unfold recordPackage, dependsOn.
  rewrite elem_of_foldl_recordTestDep, elem_of_foldl_recordDep, elem_of_app.
  settle.
Qed.

Lemma elem_of_buildRevdeps_from (order : list (string * ptr)) r D q :
  q ∈ foldl (λ revdeps entry, recordPackage deref revdeps entry.2) r order !!! D ↔
  q ∈ r !!! D ∨ (q ∈ order.*2 ∧ dependsOn deref q D).
Proof.
  revert r. induction order as [|[dir pkg] order IH]; intros r; simpl.
  - rewrite elem_of_nil. settle.
  - rewrite IH, elem_of_recordPackage, elem_of_cons. settle.
Qed.

Lemma elem_of_buildRevdeps_in (order : list (string * ptr)) D q :
  q ∈ buildRevdeps_in deref order !!! D ↔ q ∈ order.*2 ∧ dependsOn deref q D.
Proof.
  unfold buildRevdeps_in. rewrite elem_of_buildRevdeps_from.
  rewrite lookup_total_empty, elem_of_nil. settle.
Qed.

(** Multiplicities. The first pass appends [pkg] once per entry of [Deps]
    that names [D]; the second pass never appends a package that is already
    listed. *)

Lemma NoDup_foldl_recordDep pkg deps r D :
  NoDup deps → pkg ∉ r !!! D ∨ D ∉ deps → NoDup (r !!! D) →
  NoDup (foldl (recordDep deref pkg) r deps !!! D).
Proof.
  revert r. induction deps as [|dep deps IH]; intros r Hdeps Hfresh Hr; [done|].
  apply NoDup_cons in Hdeps as [Hdep Hdeps]. simpl. apply IH; [done|..].
  - unfold recordDep. destruct (strings_HasPrefix _ _).
    + destruct (decide (dep = D)) as [->|Hne]; [by right|].
      rewrite lookup_total_insert_ne by done. rewrite not_elem_of_cons in Hfresh.
      settle.
    + rewrite not_elem_of_cons in Hfresh. destruct (decide (dep = D)); settle.
  - unfold recordDep. destruct (strings_HasPrefix _ _); [|done].
    destruct (decide (dep = D)) as [->|Hne].
    + rewrite lookup_total_insert_eq. apply NoDup_app. split_and!; [done| |apply NoDup_singleton].
      intros x Hx ->%list_elem_of_singleton.
      destruct Hfresh as [Hfresh|Hfresh]; [done|]. apply Hfresh. by left.
    + by rewrite lookup_total_insert_ne.
Qed.

Lemma NoDup_foldl_recordTestDep pkg imps r D :
  NoDup (r !!! D) → NoDup (foldl (recordTestDep deref pkg) r imps !!! D).
Proof.
  revert r. induction imps as [|imp imps IH]; intros r Hr; [done|].
  simpl. apply IH. unfold recordTestDep.
  destruct (strings_HasPrefix _ _); simpl; [|done].
  destruct (slices_Contains (r !!! imp) pkg) eqn:Hc; simpl; [done|].
  apply slices_Contains_false in Hc.
  destruct (decide (imp = D)) as [->|Hne].
  - rewrite lookup_total_insert_eq. apply NoDup_app. split_and!; [done| |apply NoDup_singleton].
    by intros x Hx ->%list_elem_of_singleton.
  - by rewrite lookup_total_insert_ne.
Qed.

Lemma NoDup_recordPackage r pkg D :
  NoDup (Deps (deref pkg)) → pkg ∉ r !!! D → NoDup (r !!! D) →
  NoDup (recordPackage deref r pkg !!! D).
Proof.
  intros Hdeps Hfresh Hr. unfold recordPackage.
  apply NoDup_foldl_recordTestDep, NoDup_foldl_recordDep; auto.
Qed.

Lemma NoDup_buildRevdeps_from (order : list (string * ptr)) r D :
  NoDup order.*2 →
  (∀ q, q ∈ order.*2 → NoDup (Deps (deref q))) →
  (∀ q, q ∈ order.*2 → q ∉ r !!! D) →
  NoDup (r !!! D) →
  NoDup (foldl (λ revdeps entry, recordPackage deref revdeps entry.2) r order !!! D).
Proof.
  revert r. induction order as [|[dir pkg] order IH]; intros r Hnd Hdeps Hfresh Hr; [done|].
  simpl in *. apply NoDup_cons in Hnd as [Hpkg Hnd]. apply IH; [done|..].
  - intros q Hq. apply Hdeps. by right.
  - intros q Hq. rewrite elem_of_recordPackage. intros [Hin|[-> _]]; [|done].
    revert Hin. apply Hfresh. by right.
  - apply NoDup_recordPackage; [apply Hdeps; by left | apply Hfresh; by left | done].
Qed.

(** The entries of a map keyed by directory hold pairwise distinct
    packages. *)
Lemma visits_NoDup (pkgs : gmap string ptr) (order : list (string * ptr)) :
  (∀ dir p, pkgs !! dir = Some p → Dir (deref p) = dir) →
  visits pkgs order → NoDup order.*2.
Proof.
  intros Hkeyed Hvisit. rewrite Hvisit.
  apply NoDup_fmap_2_strong; [|apply NoDup_map_to_list].
  intros [d1 p1] [d2 p2] H1%elem_of_map_to_list H2%elem_of_map_to_list. simpl.
  intros <-. f_equal. apply Hkeyed in H1, H2. congruence.
Qed.

Lemma elem_of_visits_2 (pkgs : gmap string ptr) (order : list (string * ptr)) q :
  visits pkgs order → q ∈ order.*2 ↔ ∃ dir, pkgs !! dir = Some q.
Proof.
  intros Hvisit. rewrite Hvisit, list_elem_of_fmap. split.
  - intros ([d p] & -> & Hin%elem_of_map_to_list). by exists d.
  - intros (d & Hin). exists (d, q). split; [done|]. by apply elem_of_map_to_list.
Qed.

End RevdepsFacts.

(** [loadPackages] stores every package under its own directory. *)
Lemma loadPackages_from_keyed (full : list Package) :
  ∀ (decoded pre : list Package) (pkgs : gmap string ptr),
    full = pre ++ decoded →
    (∀ dir p, pkgs !! dir = Some p → Dir (loadPackages_store full p) = dir) →
    ∀ dir p, loadPackages_from (length pre) decoded pkgs !! dir = Some p →
             Dir (loadPackages_store full p) = dir.
Proof.
  induction decoded as [|pkg decoded IH]; intros pre pkgs Hfull Hinv dir p; [by apply Hinv|].
  simpl. replace (S (length pre)) with (length (pre ++ [pkg]))
    by (rewrite length_app; simpl; lia).
  apply IH; [by rewrite <- app_assoc|].
  intros d q. destruct (decide (Dir pkg = d)) as [<-|Hne].
  - rewrite lookup_insert_eq. intros [= <-]. unfold loadPackages_store.
    by rewrite Hfull, nth_middle.
  - rewrite lookup_insert_ne by done. apply Hinv.
Qed.

Lemma loadPackages_keyed (decoded : list Package) dir p :
  loadPackages decoded !! dir = Some p → Dir (loadPackages_store decoded p) = dir.
Proof.
  apply (loadPackages_from_keyed decoded decoded [] ∅); [done|].
  intros d q. by rewrite lookup_empty.
Qed.

(** C9. Whatever the order in which the packages are visited, [Q] is listed
    under [D] exactly when [Q] is a package of the snapshot, [D] is one of
    its production dependencies or of its test or external-test imports,
    and [D] begins with the path of [Q]'s module; and no package is listed
    twice under [D], although both passes may record it. *)
Theorem C9_reverse_index_exact (deref : ptr → Package) (pkgs : gmap string ptr)
    (order : list (string * ptr)) (D : string) :
  snapshot deref pkgs →
  visits pkgs order →
  (∀ Q, Q ∈ buildRevdeps_in deref order !!! D ↔
        (∃ dir, pkgs !! dir = Some Q)
        ∧ strings_HasPrefix D (Path (Module_ (deref Q))) = true
        ∧ (D ∈ Deps (deref Q) ∨ D ∈ TestImports (deref Q) ∨ D ∈ XTestImports (deref Q)))
  ∧ NoDup (buildRevdeps_in deref order !!! D).
Proof.
  intros Hsnap Hvisit. split.
  - intros Q. rewrite elem_of_buildRevdeps_in, (elem_of_visits_2 pkgs order Q Hvisit).
    unfold dependsOn. tauto.
  - unfold buildRevdeps_in. apply NoDup_buildRevdeps_from.
    + apply (visits_NoDup deref pkgs); [|done]. intros dir p Hp. by apply Hsnap.
    + intros q (dir & Hq)%(elem_of_visits_2 pkgs order q Hvisit). by apply (Hsnap dir).
    + intros q _. rewrite lookup_total_empty. apply not_elem_of_nil.
    + rewrite lookup_total_empty. apply NoDup_nil_2.
Qed.

Lemma sample_snapshot : snapshot Sample.store Sample.pkgs.
Proof.
  intros dir p Hp. split; [by apply loadPackages_keyed|].
  assert (p < 5 ∨ Sample.store p = zeroPackage) as [Hlt|Hzero].
  { destruct (decide (p < 5)); [by left | right].
    unfold Sample.store, loadPackages_store. apply nth_overflow. simpl. lia. }
  - do 5 (destruct p as [|p]; [vm_compute; repeat constructor; rewrite ?elem_of_cons, ?elem_of_nil; intuition discriminate|]). lia.
  - rewrite Hzero. constructor.
Qed.

Lemma C9_witness :
  (∀ Q, Q ∈ Sample.revdeps !!! "example.com/app/core" ↔
        (∃ dir, Sample.pkgs !! dir = Some Q)
        ∧ strings_HasPrefix "example.com/app/core" (Path (Module_ (Sample.store Q))) = true
        ∧ ("example.com/app/core" ∈ Deps (Sample.store Q)
           ∨ "example.com/app/core" ∈ TestImports (Sample.store Q)
           ∨ "example.com/app/core" ∈ XTestImports (Sample.store Q)))
  ∧ NoDup (Sample.revdeps !!! "example.com/app/core").
Proof.
  apply (C9_reverse_index_exact Sample.store Sample.pkgs (map_to_list Sample.pkgs)
           "example.com/app/core").
  - apply sample_snapshot.
  - apply visits_canonical.
Defined.

(** The index built under one visiting order of the packages and the index
    built under another list the same packages under every key, so the
    selected paths do not depend on either [range] order. *)
Lemma resolve_independent_of_range_order (deref : ptr → Package)
    (pkgs : gmap string ptr) (filenames : list string)
    (op1 op2 : list (string * ptr)) (o1 o2 : list (string * list string)) :
  visits pkgs op1 → visits pkgs op2 →
  visits (groupByDir filenames) o1 → visits (groupByDir filenames) o2 →
  resolve_in deref pkgs (buildRevdeps_in deref op1) o1
  = resolve_in deref pkgs (buildRevdeps_in deref op2) o2.
Proof.
  intros Hp1 Hp2 H1 H2.
  apply (resolve_in_canonical deref pkgs _ _ filenames filenames); [done| |done|done].
  intros k q. rewrite !elem_of_buildRevdeps_in.
  by rewrite (elem_of_visits_2 pkgs op1 q Hp1), (elem_of_visits_2 pkgs op2 q Hp2).
Qed.

(** Outside the data model: a production dependency listed twice is
    recorded twice, the first pass appending without a containment check. *)
Example repeated_dependency_recorded_twice :
  buildRevdeps_in (λ _, Sample.twice) [("/src/app/twice", 7)]
    !!! "example.com/app/core" = [7; 7].
Proof. vm_compute. reflexivity. Qed.

(** C2 (not met by the program). Nothing in [buildRevdeps] keeps
    a package out of the list stored under its own import path: it is there
    exactly when the package names itself among its imports. In the sample
    workspace the external test package of [util] imports [util], as
    external tests do, and [util] is listed as its own reverse dependent. *)
Theorem C2_self_listed_when_self_imported :
  (∀ deref order Q,
     Q ∈ buildRevdeps_in deref order !!! ImportPath (deref Q)
     ↔ Q ∈ order.*2 ∧ dependsOn deref Q (ImportPath (deref Q)))
  ∧ Sample.pkgs !! "/src/app/util" = Some 4
  ∧ Sample.store 4 = Sample.util
  ∧ Sample.revdeps !!! ImportPath Sample.util = [4].
Proof.
  split; [intros; apply elem_of_buildRevdeps_in|]. vm_compute. done.
Qed.

(** ** The collector *)

Module DebounceFacts.
Import Debounce.

Section Facts.

Context {T : Type}.

Implicit Types (coin : nat → bool) (ch : list (Offer T)) (evs : list T).

(** The loop returns when the timer fires, whatever is sent meanwhile. *)
Lemma debounceLoop_returned coin (deadline now : N) evs ch :
  returned (debounceLoop coin deadline now evs ch) = N.max now deadline.
Proof.
  revert now evs. induction ch as [|o ch IH]; intros now evs; [done|].
  simpl.
  destruct (N.ltb_spec (N.max now (arrival o)) (N.max now deadline)) as [Hlt|Hge].
  - rewrite IH. lia.
  - destruct (N.ltb_spec (N.max now deadline) (N.max now (arrival o))) as [Hlt'|Hge']; [done|].
    destruct (coin (length evs)); [|done]. rewrite IH. lia.
Qed.

Lemma debounceFor_returned coin (now duration : N) ch :
  returned (debounceFor coin now ch duration) = (now + duration)%N.
Proof. unfold debounceFor. rewrite debounceLoop_returned. lia. Qed.

(** Everything sent before the timer fires is received. *)
Lemma debounceLoop_all_before coin (deadline now : N) evs ch :
  (now < deadline)%N →
  (∀ o, o ∈ ch → (arrival o < deadline)%N) →
  debounceLoop coin deadline now evs ch
  = {| events := evs ++ map payload ch; returned := deadline; remaining := [] |}.
Proof.
  revert now evs. induction ch as [|o ch IH]; intros now evs Hnow Hall; simpl.
  - rewrite app_nil_r. f_equal. lia.
  - assert (arrival o < deadline)%N as Ho by (apply Hall; by left).
    destruct (N.ltb_spec (N.max now (arrival o)) (N.max now deadline)) as [Hlt|Hge]; [|lia].
    rewrite IH; [by rewrite <- app_assoc | lia |].
    intros o' Ho'. apply Hall. by right.
Qed.

(** Nothing sent after the timer has fired is received. *)
Lemma debounceLoop_none_after coin (deadline now : N) evs ch :
  (∀ o, o ∈ ch → (deadline < arrival o)%N) → (now ≤ deadline)%N →
  events (debounceLoop coin deadline now evs ch) = evs.
Proof.
  destruct ch as [|o ch]; intros Hall Hnow; [done|]. simpl.
  assert (deadline < arrival o)%N as Ho by (apply Hall; by left).
  destruct (N.ltb_spec (N.max now (arrival o)) (N.max now deadline)) as [Hlt|Hge]; [lia|].
  destruct (N.ltb_spec (N.max now deadline) (N.max now (arrival o))) as [Hlt'|Hge']; [done|lia].
Qed.

End Facts.

(** C3, counterexample. Three events 150 ms apart, so each less than the
    200 ms window after the previous one, then silence. The timer set when
    collection starts fires at 200 ms: the batch holds the first two events
    only and is returned 50 ms after the second one, the third event being
    left on the channel for the next batch. *)
Lemma C3_counterexample : ¬ quietPeriodCollector Sample.burst3.
Proof.
  intros Hclaim.
  destruct (Hclaim) with (coin := λ _ : nat, true) as (c & Hc & Hevs & Hret).
  - unfold Sample.burst3, debouncePeriod, Millisecond. simpl. lia.
  - vm_compute in Hc. injection Hc as <-. discriminate Hevs.
Qed.

Example burst3_split :
  ∀ coin, nextBatch coin 0 Sample.burst3
  = Some {| events := ["/src/app/core/core.go"; "/src/app/api/api.go"];
            returned := 200 * Millisecond;
            remaining := [ {| arrival := 300 * Millisecond;
                              payload := "/src/app/cmd/main.go" |} ] |}%N.
Proof. intros coin. vm_compute. reflexivity. Qed.

(** C3 (amended). The window is started once, by the first event of the
    batch, and later events do not restart it. For every burst whose events
    all arrive less than one window after the collector took the first one,
    followed by silence, the collector returns all the events in a single
    batch, in order, and it returns exactly one window after it took the
    first event. *)
Theorem C3_fixed_window_collects_burst {T : Type} (coin : nat → bool) (now : N)
    (first : Offer T) (rest : list (Offer T)) :
  (∀ o, o ∈ rest → (arrival o < N.max now (arrival first) + debouncePeriod)%N) →
  nextBatch coin now (first :: rest)
  = Some {| events := map payload (first :: rest);
            returned := (N.max now (arrival first) + debouncePeriod)%N;
            remaining := [] |}.
Proof.
  intros Hall. unfold nextBatch, debounceFor.
  rewrite debounceLoop_all_before; [done| |done].
  unfold debouncePeriod, Millisecond. lia.
Qed.

Lemma C3_witness :
  nextBatch (λ _, false) 0
    [ {| arrival := 0; payload := "/src/app/core/core.go" |};
      {| arrival := 150 * Millisecond; payload := "/src/app/api/api.go" |} ]%N
  = Some {| events := ["/src/app/core/core.go"; "/src/app/api/api.go"];
            returned := (N.max 0 0 + debouncePeriod)%N;
            remaining := [] |}.
Proof.
  apply (C3_fixed_window_collects_burst (λ _, false) 0%N
           {| arrival := 0%N; payload := "/src/app/core/core.go" |}
           [ {| arrival := (150 * Millisecond)%N; payload := "/src/app/api/api.go" |} ]).
  intros o ->%list_elem_of_singleton. vm_compute. reflexivity.
Defined.

End DebounceFacts.

(** * Further properties of the program *)

(** ** Collecting and batching *)

Module LoopFacts.
Import Debounce Loop.

Section Facts.

Context {T : Type}.

Implicit Types (coin : nat → bool) (ch : list (Offer T)) (evs : list T).

(** The loop takes a prefix of the channel and leaves the rest. *)
Lemma debounceLoop_split coin (deadline now : N) evs ch :
  ∃ k, events (debounceLoop coin deadline now evs ch) = evs ++ map payload (take k ch)
       ∧ remaining (debounceLoop coin deadline now evs ch) = drop k ch.
Proof.
  revert now evs. induction ch as [|o ch IH]; intros now evs.
  - exists 0. simpl. by rewrite app_nil_r.
  - simpl.
    destruct (IH (N.max now (arrival o)) (evs ++ [payload o])) as (k & Hk & Hr).
    assert (∃ k', events (debounceLoop coin deadline (N.max now (arrival o))
                            (evs ++ [payload o]) ch)
                  = evs ++ map payload (take k' (o :: ch))
                  ∧ remaining (debounceLoop coin deadline (N.max now (arrival o))
                                 (evs ++ [payload o]) ch) = drop k' (o :: ch)) as Hrecv.
    { exists (S k). simpl. by rewrite Hk, Hr, <- app_assoc. }
    assert (∃ k', evs = evs ++ map payload (take k' (o :: ch))
                  ∧ o :: ch = drop k' (o :: ch)) as Hstop.
    { exists 0. simpl. by rewrite app_nil_r. }
    destruct (_ <? _)%N; [done|]. destruct (_ <? _)%N; [done|].
    by destruct (coin _).
Qed.

(** With the offers in the order of their instants, the prefix taken holds
    every offer made before the timer fires and none made after. *)
Lemma debounceLoop_timed coin (deadline now : N) evs ch :
  chronological ch →
  (now < deadline)%N ∨ (now = deadline ∧ ∀ o, o ∈ ch → (deadline ≤ arrival o)%N) →
  ∃ k, events (debounceLoop coin deadline now evs ch) = evs ++ map payload (take k ch)
       ∧ remaining (debounceLoop coin deadline now evs ch) = drop k ch
       ∧ (∀ o, o ∈ take k ch → (arrival o ≤ deadline)%N)
       ∧ (∀ o, o ∈ drop k ch → (deadline ≤ arrival o)%N).
Proof.
  revert now evs. induction ch as [|o ch IH]; intros now evs Hchron Hinv.
  - exists 0. simpl. rewrite app_nil_r.
    split_and!; [done|done|..]; intros o Ho; by apply elem_of_nil in Ho.
  - apply StronglySorted_inv in Hchron as [Hchron Hafter].
    rewrite Forall_forall in Hafter.
    assert (∀ a b : N, a = b ∨ (a < b)%N ∨ (b < a)%N) as Htri by lia.
    assert (Hstop : (deadline ≤ arrival o)%N →
      ∃ k, evs = evs ++ map payload (take k (o :: ch))
           ∧ o :: ch = drop k (o :: ch)
           ∧ (∀ o', o' ∈ take k (o :: ch) → (arrival o' ≤ deadline)%N)
           ∧ (∀ o', o' ∈ drop k (o :: ch) → (deadline ≤ arrival o')%N)).
    { intros Ho. exists 0. simpl. rewrite app_nil_r. split_and!; [done|done|..].
      - intros o' Ho'. by apply elem_of_nil in Ho'.
      - intros o' [->|Ho']%elem_of_cons; [done|]. apply Hafter in Ho'. lia. }
    assert (Hrecv : ∀ now', (arrival o ≤ deadline)%N →
      (now' < deadline)%N ∨ (now' = deadline ∧ ∀ o', o' ∈ ch → (deadline ≤ arrival o')%N) →
      ∃ k, events (debounceLoop coin deadline now' (evs ++ [payload o]) ch)
           = evs ++ map payload (take k (o :: ch))
           ∧ remaining (debounceLoop coin deadline now' (evs ++ [payload o]) ch)
             = drop k (o :: ch)
           ∧ (∀ o', o' ∈ take k (o :: ch) → (arrival o' ≤ deadline)%N)
           ∧ (∀ o', o' ∈ drop k (o :: ch) → (deadline ≤ arrival o')%N)).
    { intros now' Ho Hinv'.
      destruct (IH now' (evs ++ [payload o]) Hchron Hinv') as (k & Hk & Hr & Hin & Hout).
      exists (S k). simpl. rewrite Hk, Hr, <- app_assoc. split_and!; [done|done| |done].
      intros o' [->|Ho']%elem_of_cons; [done | by apply Hin]. }
    simpl.
    destruct (N.ltb_spec (N.max now (arrival o)) (N.max now deadline)) as [Hlt|Hge].
    { apply Hrecv; [lia | left; lia]. }
    destruct (N.ltb_spec (N.max now deadline) (N.max now (arrival o))) as [Hlt'|Hge'].
    { apply Hstop. destruct Hinv as [?|[? ?]]; lia. }
    assert (N.max now (arrival o) = deadline) as Htie by (destruct Hinv as [?|[? ?]]; lia).
    assert (∀ o', o' ∈ o :: ch → (deadline ≤ arrival o')%N) as Hlate.
    { destruct Hinv as [Hnow|[_ Hall]]; [|done].
      assert (arrival o = deadline) as Heq by lia.
      intros o' [->|Ho']%elem_of_cons; [lia|]. apply Hafter in Ho'. lia. }
    destruct (coin _).
    + rewrite Htie. apply Hrecv; [lia|]. right. split; [done|].
      intros o' Ho'. apply Hlate. by right.
    + apply Hstop, Hlate. by left.
Qed.

Lemma nextBatch_split coin (now : N) ch c :
  nextBatch coin now ch = Some c →
  ∃ k, (0 < k)%nat ∧ events c = map payload (take k ch) ∧ remaining c = drop k ch.
Proof.
  destruct ch as [|first ch]; [done|]. simpl. intros [= <-]. unfold debounceFor.
  destruct (debounceLoop_split coin (N.max now (arrival first) + debouncePeriod)
              (N.max now (arrival first)) [] ch) as (k & Hk & Hr).
  exists (S k). simpl. rewrite Hk, Hr. split_and!; [lia|done|done].
Qed.

Lemma run_loop_partition (fuel : nat) (coins : nat → nat → bool) (busy : list T → N)
    (now : N) ch :
  (length ch ≤ fuel)%nat →
  concat (run_loop fuel coins busy now ch) = map payload ch
  ∧ Forall (λ batch, batch ≠ []) (run_loop fuel coins busy now ch).
Proof.
  revert coins now ch. induction fuel as [|fuel IH]; intros coins now ch Hfuel.
  - destruct ch; [done | simpl in Hfuel; lia].
  - simpl. destruct (nextBatch (coins 0) now ch) as [c|] eqn:Hc.
    + destruct (nextBatch_split _ _ _ _ Hc) as (k & Hpos & Hk & Hr).
      destruct (IH (λ i, coins (S i)) (returned c + busy (events c))%N (remaining c))
        as [Hcat Hne].
      { rewrite Hr, length_drop. lia. }
      simpl. split.
      * by rewrite Hcat, Hk, Hr, <- map_app, take_drop.
      * constructor; [|done]. rewrite Hk.
        destruct ch as [|o ch]; [discriminate Hc|]. destruct k; [lia|done].
    + destruct ch; [done | discriminate Hc].
Qed.

Lemma run_loop_enough (fuel fuel' : nat) (coins : nat → nat → bool)
    (busy : list T → N) (now : N) ch :
  (length ch ≤ fuel)%nat → (length ch ≤ fuel')%nat →
  run_loop fuel coins busy now ch = run_loop fuel' coins busy now ch.
Proof.
  revert fuel' coins now ch.
  induction fuel as [|fuel IH]; intros fuel' coins now ch Hfuel Hfuel'.
  - destruct ch; [by destruct fuel' | simpl in Hfuel; lia].
  - destruct fuel' as [|fuel']; [destruct ch; [done | simpl in Hfuel'; lia]|].
    simpl. destruct (nextBatch (coins 0) now ch) as [c|] eqn:Hc; [|done].
    destruct (nextBatch_split _ _ _ _ Hc) as (k & Hpos & Hk & Hr).
    f_equal. destruct ch as [|o ch]; [discriminate Hc|].
    apply IH; rewrite Hr, length_drop; simpl in *; lia.
Qed.

Lemma run_loop_fuel (fuel : nat) (coins : nat → nat → bool) (busy : list T → N)
    (now : N) ch :
  (length ch ≤ fuel)%nat →
  run_loop fuel coins busy now ch = run_batches coins busy now ch.
Proof. intros Hfuel. by apply run_loop_enough. Qed.

End Facts.

End LoopFacts.

(** X13. [debounceFor] neither drops, repeats nor reorders events: whatever
    the timing and the picks of [select], the events it returns are a prefix
    of what was sent on the channel, and what it leaves on the channel is
    the rest. *)
Theorem X13_debounceFor_takes_a_prefix {T : Type} (coin : nat → bool) (now : N)
    (ch : list (Debounce.Offer T)) (duration : N) :
  ∃ k, Debounce.events (Debounce.debounceFor coin now ch duration)
       = map Debounce.payload (take k ch)
       ∧ Debounce.remaining (Debounce.debounceFor coin now ch duration) = drop k ch.
Proof.
  unfold Debounce.debounceFor.
  destruct (LoopFacts.debounceLoop_split coin (now + duration) now [] ch)
    as (k & Hk & Hr).
  by exists k.
Qed.

(** X14. [debounceFor] called at instant [now] returns at [now + duration],
    however many events are sent and whenever they are sent: traffic on the
    channel never postpones the return. *)
Theorem X14_debounceFor_returns_on_time {T : Type} (coin : nat → bool) (now : N)
    (ch : list (Debounce.Offer T)) (duration : N) :
  Debounce.returned (Debounce.debounceFor coin now ch duration) = (now + duration)%N.
Proof. apply DebounceFacts.debounceFor_returned. Qed.

(** X15. With a positive duration and the offers in the order of their
    instants, [debounceFor] returns every event sent before [now + duration]
    and no event sent after it; only events sent exactly at that instant may
    go either way. *)
Theorem X15_debounceFor_window {T : Type} (coin : nat → bool) (now : N)
    (ch : list (Debounce.Offer T)) (duration : N) :
  (0 < duration)%N →
  Loop.chronological ch →
  ∃ k, Debounce.events (Debounce.debounceFor coin now ch duration)
       = map Debounce.payload (take k ch)
       ∧ Debounce.remaining (Debounce.debounceFor coin now ch duration) = drop k ch
       ∧ (∀ o, o ∈ take k ch → (Debounce.arrival o ≤ now + duration)%N)
       ∧ (∀ o, o ∈ drop k ch → (now + duration ≤ Debounce.arrival o)%N).
Proof.
  intros Hpos Hchron. unfold Debounce.debounceFor.
  destruct (LoopFacts.debounceLoop_timed coin (now + duration) now [] ch Hchron)
    as (k & Hk & Hr & Hin & Hout); [left; lia|].
  by exists k.
Qed.

Lemma X15_witness :
  ∃ k, Debounce.events (Debounce.debounceFor (λ _, true) 0 Sample.burst3
                          Debounce.debouncePeriod)
       = map Debounce.payload (take k Sample.burst3)
       ∧ Debounce.remaining (Debounce.debounceFor (λ _, true) 0 Sample.burst3
                               Debounce.debouncePeriod) = drop k Sample.burst3
       ∧ (∀ o, o ∈ take k Sample.burst3
               → (Debounce.arrival o ≤ 0 + Debounce.debouncePeriod)%N)
       ∧ (∀ o, o ∈ drop k Sample.burst3
               → (0 + Debounce.debouncePeriod ≤ Debounce.arrival o)%N).
Proof.
  apply (X15_debounceFor_window (λ _, true) 0%N Sample.burst3 Debounce.debouncePeriod).
  - vm_compute. reflexivity.
  - unfold Loop.chronological, Sample.burst3, Debounce.Millisecond.
    repeat constructor; simpl; lia.
Defined.

(** X16. The loop of [run] hands every event to [runAllTests] exactly once
    and in order: the batches, put end to end, are the events sent on the
    channel, and no batch is empty, whatever the timing, the picks of
    [select] and the time each test run takes. *)
Theorem X16_run_batches_partition {T : Type} (coins : nat → nat → bool)
    (busy : list T → N) (now : N) (ch : list (Debounce.Offer T)) :
  concat (Loop.run_batches coins busy now ch) = map Debounce.payload ch
  ∧ Forall (λ batch, batch ≠ []) (Loop.run_batches coins busy now ch).
Proof. unfold Loop.run_batches. by apply LoopFacts.run_loop_partition. Qed.

Example burst3_batches :
  Loop.run_batches (λ _ _, true) (λ _, 5 * Debounce.Millisecond)%N 0 Sample.burst3
  = [["/src/app/core/core.go"; "/src/app/api/api.go"]; ["/src/app/cmd/main.go"]].
Proof. vm_compute. reflexivity. Qed.

(** ** Loading the packages *)

Lemma loadPackages_from_snoc (next : ptr) (decoded : list Package) (pkg : Package)
    (pkgs : gmap string ptr) :
  loadPackages_from next (decoded ++ [pkg]) pkgs
  = <[Dir pkg := next + length decoded]> (loadPackages_from next decoded pkgs).
Proof.
  revert next pkgs. induction decoded as [|p decoded IH]; intros next pkgs; simpl.
  - by rewrite Nat.add_0_r.
  - rewrite IH. simpl. by rewrite Nat.add_succ_r.
Qed.

Lemma loadPackages_snoc (decoded : list Package) (pkg : Package) :
  loadPackages (decoded ++ [pkg]) = <[Dir pkg := length decoded]> (loadPackages decoded).
Proof. unfold loadPackages. by rewrite loadPackages_from_snoc. Qed.

Lemma loadPackages_decode_valid (next : ptr) (pre : list Package) (rest : list Document)
    (pkgs : gmap string ptr) :
  loadPackages_decode next (map Valid pre ++ rest) pkgs
  = loadPackages_decode (next + length pre) rest (loadPackages_from next pre pkgs).
Proof.
  revert next pkgs. induction pre as [|p pre IH]; intros next pkgs; simpl.
  - by rewrite Nat.add_0_r.
  - rewrite IH. simpl. by rewrite Nat.add_succ_r.
Qed.

(** X1. [allFunc] answers true exactly when the predicate holds of every
    element, so it answers true on the empty slice, and false exactly when
    some element fails the predicate. *)
Theorem X1_allFunc_spec {E : Type} (s : list E) (f : E → bool) :
  (allFunc s f = true ↔ ∀ x, x ∈ s → f x = true)
  ∧ (allFunc s f = false ↔ ∃ x, x ∈ s ∧ f x = false).
Proof.
  split; [apply allFunc_true|].
  induction s as [|y s IH]; simpl.
  - split; [done|]. intros (x & Hx & _). by apply elem_of_nil in Hx.
  - destruct (f y) eqn:Hy; simpl.
    + rewrite IH. split; intros (x & Hx & Hfx); exists x.
      * split; [by right | done].
      * apply elem_of_cons in Hx as [->|Hx]; [congruence | done].
    + split; [|done]. intros _. exists y. split; [by left | done].
Qed.

(** X2. A directory is a key of the loaded map exactly when some decoded
    package has it as its [Dir]. *)
Theorem X2_loadPackages_keys (decoded : list Package) (dir : string) :
  is_Some (loadPackages decoded !! dir) ↔ ∃ pkg, pkg ∈ decoded ∧ Dir pkg = dir.
Proof.
  induction decoded as [|pkg decoded IH] using rev_ind.
  - unfold loadPackages. simpl. rewrite lookup_empty. split.
    + by intros [? ?].
    + intros (pkg & Hin & _). by apply elem_of_nil in Hin.
  - rewrite loadPackages_snoc, lookup_insert_is_Some, IH. split.
    + intros [<-|[Hne (p & Hin & Hp)]].
      * exists pkg. split; [|done]. apply elem_of_app. right. by left.
      * exists p. split; [|done]. apply elem_of_app. by left.
    + intros (p & [Hin|Hin%list_elem_of_singleton]%elem_of_app & Hp).
      * destruct (decide (Dir pkg = dir)); [by left | right]. split; [done|]. by exists p.
      * left. congruence.
Qed.

(** X3. The map sends a directory to the address of the last decoded
    package that has this [Dir]: addresses are positions in the decoded
    sequence, the package found there has the directory as its [Dir], and
    no later package has. *)
Theorem X3_loadPackages_last_wins (decoded : list Package) (dir : string) (p : ptr) :
  loadPackages decoded !! dir = Some p ↔
  (∃ pkg, decoded !! p = Some pkg ∧ Dir pkg = dir)
  ∧ (∀ j pkg', (p < j)%nat → decoded !! j = Some pkg' → Dir pkg' ≠ dir).
Proof.
  revert p. induction decoded as [|x decoded IH] using rev_ind; intros p.
  - unfold loadPackages. simpl. rewrite lookup_empty. split; [done|].
    intros [(pkg & Hp & _) _]. by rewrite lookup_nil in Hp.
  - rewrite loadPackages_snoc. destruct (decide (Dir x = dir)) as [Hx|Hx].
    + rewrite Hx, lookup_insert_eq. split.
      * intros [= <-]. split.
        -- exists x. split; [|done]. by rewrite list_lookup_middle.
        -- intros j pkg' Hj Hlook. apply lookup_lt_Some in Hlook.
           rewrite length_app in Hlook. simpl in Hlook. lia.
      * intros [(pkg & Hp & Hdir) Hlast]. f_equal.
        pose proof (lookup_lt_Some _ _ _ Hp) as Hlt.
        rewrite length_app in Hlt. simpl in Hlt.
        destruct (decide (p = length decoded)) as [->|Hne]; [done|].
        exfalso. apply (Hlast (length decoded) x); [lia| |done].
        by rewrite list_lookup_middle.
    + rewrite lookup_insert_ne, IH by done. split.
      * intros [(pkg & Hp & Hdir) Hlast]. split.
        -- exists pkg. split; [|done]. by apply lookup_app_l_Some.
        -- intros j pkg' Hj Hlook.
           apply lookup_app_Some in Hlook as [Hlook|[Hge Hlook]]; [by eapply Hlast|].
           apply list_lookup_singleton_Some in Hlook as [_ <-]. done.
      * intros [(pkg & Hp & Hdir) Hlast].
        apply lookup_app_Some in Hp as [Hp|[Hge Hp]].
        -- split; [by exists pkg|]. intros j pkg' Hj Hlook.
           apply (Hlast j pkg' Hj). by apply lookup_app_l_Some.
        -- apply list_lookup_singleton_Some in Hp as [_ <-]. done.
Qed.

(** X4. [loadPackages] is all or nothing. When every document of the
    stream decodes, the result is the map of all the decoded packages; as
    soon as one document fails to decode, the result is that decoding
    error, whatever was decoded before and whatever follows. *)
Theorem X4_loadPackages_all_or_nothing :
  (∀ decoded, loadPackages_run (inr (map Valid decoded)) = inr (loadPackages decoded))
  ∧ (∀ pre err rest,
       loadPackages_run (inr (map Valid pre ++ Malformed err :: rest))
       = inl ("failed to decode JSON: " +:+ err)).
Proof.
  split.
  - intros decoded. unfold loadPackages_run.
    rewrite <- (app_nil_r (map Valid decoded)), loadPackages_decode_valid. done.
  - intros pre err rest. unfold loadPackages_run.
    by rewrite loadPackages_decode_valid.
Qed.

(** ** Paths and groups *)

Lemma TrimSuffix_slash_snoc (d : string) : strings_TrimSuffix_slash (d +:+ "/") = d.
Proof.
  induction d as [|c d IH]; [done|].
  change (String c d +:+ "/") with (String c (d +:+ "/")).
  destruct d as [|c' d]; [reflexivity|].
  change (String c' d +:+ "/") with (String c' (d +:+ "/")) in *.
  cbn [strings_TrimSuffix_slash]. cbn [strings_TrimSuffix_slash] in IH.
  by rewrite IH.
Qed.

Lemma Split_spec (path d f : string) :
  filepath_Split path = (d, f) →
  path = d +:+ f ∧ hasSlash f = false
  ∧ (if hasSlash path then ∃ d', d = d' +:+ "/" else d = "").
Proof.
  revert d f. induction path as [|c rest IH]; intros d f; simpl.
  - by intros [= <- <-].
  - destruct (filepath_Split rest) as [d0 f0].
    destruct (IH d0 f0 eq_refl) as (Hrest & Hf0 & Hd0).
    destruct d0 as [|a d0].
    + clear IH. change (rest = f0) in Hrest. subst f0.
      destruct (hasSlash rest) eqn:Hs; [by destruct Hd0 as [[|??] ?]|].
      destruct (Ascii.eqb c "/") eqn:Hc; intros [= <- <-]; simpl.
      * apply Ascii.eqb_eq in Hc as ->. split_and!; [done|done|by exists ""].
      * by rewrite Hc, Hs.
    + intros [= <- <-]. split_and!; [by rewrite Hrest | done |].
      destruct (hasSlash rest) eqn:Hs; [|done].
      rewrite orb_true_r. destruct Hd0 as [d' Hd']. exists (String c d').
      simpl. by rewrite Hd'.
Qed.

(** X5. The directory and the file name under which [runAllTests] files a
    changed path put the path together again: the file name holds no slash,
    a path with a slash is its directory, a slash and its file name, and a
    path without any slash is a file name in the directory with the empty
    name. *)
Theorem X5_splitPath_recomposes (path : string) :
  hasSlash (splitPath path).2 = false
  ∧ (if hasSlash path
     then path = (splitPath path).1 +:+ "/" +:+ (splitPath path).2
     else splitPath path = ("", path)).
Proof.
  unfold splitPath. destruct (filepath_Split path) as [d f] eqn:Hsplit.
  apply Split_spec in Hsplit as (Hpath & Hf & Hd). simpl. split; [done|].
  destruct (hasSlash path).
  - destruct Hd as [d' ->]. rewrite TrimSuffix_slash_snoc. subst path.
    clear. induction d' as [|c d' IH]; [done|].
    change (String c ((d' +:+ "/") +:+ f) = String c (d' +:+ "/" +:+ f)).
    by rewrite IH.
  - subst d. simpl in *. by subst.
Qed.

(** X6. The first loop of [runAllTests] files every changed path under its
    directory and loses nothing: the group of a directory is the list of
    the file names of the paths of the batch that lie in it, in batch order
    and with their repetitions, and a directory without any changed path
    has no group (so no group is empty). *)
Theorem X6_groupByDir_groups (filenames : list string) (dir : string) :
  groupByDir filenames !! dir
  = if decide (filesIn dir filenames = []) then None else Some (filesIn dir filenames).
Proof. apply groupByDir_lookup. Qed.

Example sample_groups :
  map_to_list (groupByDir ["/src/app/core/core.go"; "/src/app/api/api.go";
                           "/src/app/core/core_test.go"; "/src/app/core/core.go"])
  ≡ₚ [("/src/app/core", ["core.go"; "core_test.go"; "core.go"]);
      ("/src/app/api", ["api.go"])].
Proof. vm_compute. by rewrite Permutation_swap. Qed.

(** ** Selection *)

Section SelectionFacts.

Variable deref : ptr → Package.

Implicit Types (pkg q : ptr) (pkgs : gmap string ptr)
  (revdeps : gmap string (list ptr)) (filenames files : list string).

Lemma allFunc_false {E : Type} (s : list E) (f : E → bool) :
  allFunc s f = false ↔ ∃ x, x ∈ s ∧ f x = false.
Proof.
  induction s as [|y s IH]; simpl.
  - split; [done|]. intros (x & Hx & _). by apply elem_of_nil in Hx.
  - destruct (f y) eqn:Hy; simpl.
    + rewrite IH. split; intros (x & Hx & Hfx); exists x.
      * split; [by right | done].
      * apply elem_of_cons in Hx as [->|Hx]; [congruence | done].
    + split; [|done]. intros _. exists y. split; [by left | done].
Qed.

(** Who is selected for one directory group. *)
Lemma elem_of_testsToRun pkg (rd : list ptr) files q :
  q ∈ testsToRun deref pkg rd files ↔
  rd ≠ []
  ∧ (∃ f, f ∈ files ∧ f ∉ IgnoredGoFiles (deref pkg))
  ∧ (q = pkg
     ∨ (q ∈ rd ∧ ∃ f, f ∈ files ∧ (f ∉ IgnoredGoFiles (deref pkg))
                      ∧ isTestFile deref pkg f = false)).
Proof.
  destruct (decide (rd = [])) as [->|Hrd].
  { rewrite testsToRun_no_dependents, elem_of_nil. tauto. }
  destruct (slices_DeleteFunc files (isIgnored deref pkg)) as [|f0 kept] eqn:Hkept.
  { rewrite DeleteFunc_nil_iff in Hkept.
    rewrite testsToRun_nothing_left, elem_of_nil.
    - split; [done|]. intros (_ & (f & Hf & Hnot) & _).
      apply Hnot, slices_Contains_true. by apply Hkept.
    - intros f Hf. apply slices_Contains_true. by apply Hkept. }
  assert (∃ f, f ∈ files ∧ f ∉ IgnoredGoFiles (deref pkg)) as Hleft.
  { exists f0. assert (f0 ∈ slices_DeleteFunc files (isIgnored deref pkg)) as Hin
      by (rewrite Hkept; by left).
    apply elem_of_DeleteFunc in Hin as [Hin Hnot]. split; [done|].
    by apply slices_Contains_false. }
  destruct (allFunc (slices_DeleteFunc files (isIgnored deref pkg)) (isTestFile deref pkg))
    eqn:Hall.
  - rewrite allFunc_true in Hall.
    rewrite testsToRun_tests_only, list_elem_of_singleton; [|done|done|].
    + split; [by intros ->; split_and!; [| |left]|].
      intros (_ & _ & [->|[_ (f & Hf & Hnot & Hprod)]]); [done|].
      rewrite Hall in Hprod; [done|]. apply elem_of_DeleteFunc. split; [done|].
      by apply slices_Contains_false.
    + intros f Hf Hnot. apply Hall, elem_of_DeleteFunc. split; [done|].
      by apply slices_Contains_false.
  - apply allFunc_false in Hall as (f & [Hf Hnot]%elem_of_DeleteFunc & Hprod).
    apply slices_Contains_false in Hnot.
    rewrite testsToRun_production, elem_of_app, list_elem_of_singleton; [|done|by exists f].
    split.
    + intros [Hq| ->]; (split_and!; [done|done|]); [right | by left].
      split; [done|]. by exists f.
    + intros (_ & _ & [->|[Hq _]]); [by right | by left].
Qed.

Lemma filesIn_singleton (dir path : string) :
  filesIn dir [path]
  = if decide ((splitPath path).1 = dir) then [(splitPath path).2] else [].
Proof. by rewrite filesIn_cons. Qed.

(** A group selects what its paths select one by one. *)
Lemma elem_of_testsToRun_paths pkg (rd : list ptr) (dir : string) filenames q :
  q ∈ testsToRun deref pkg rd (filesIn dir filenames) ↔
  ∃ path, path ∈ filenames ∧ q ∈ testsToRun deref pkg rd (filesIn dir [path]).
Proof.
  rewrite elem_of_testsToRun. split.
  - intros (Hrd & (f & Hf & Hnot) & Hq).
    assert (∀ f', f' ∈ filesIn dir filenames →
              ∃ path, path ∈ filenames ∧ f' ∈ filesIn dir [path]) as Hpath.
    { intros f' (path & Hin & Hsplit)%elem_of_filesIn. exists path. split; [done|].
      apply elem_of_filesIn. exists path. split; [by left | done]. }
    destruct Hq as [->|[Hq (f' & Hf' & Hnot' & Hprod)]].
    + destruct (Hpath f Hf) as (path & Hin & Hfp). exists path. split; [done|].
      apply elem_of_testsToRun. split_and!; [done|by exists f|by left].
    + destruct (Hpath f' Hf') as (path & Hin & Hfp). exists path. split; [done|].
      apply elem_of_testsToRun. split_and!; [done|by exists f'|right].
      split; [done|]. by exists f'.
  - intros (path & Hin & Hq). apply elem_of_testsToRun in Hq as (Hrd & Hleft & Hq).
    assert (∀ f', f' ∈ filesIn dir [path] → f' ∈ filesIn dir filenames) as Hsub.
    { intros f' (path' & ->%list_elem_of_singleton & Hsplit)%elem_of_filesIn.
      apply elem_of_filesIn. by exists path. }
    split_and!; [done|..].
    + destruct Hleft as (f & Hf & Hnot). exists f. by split; [apply Hsub|].
    + destruct Hq as [->|[Hq (f & Hf & Hnot & Hprod)]]; [by left | right].
      split; [done|]. exists f. by split_and!; [apply Hsub| |].
Qed.

Lemma listsNonEmpty_insert (r : gmap string (list ptr)) (D : string) (l : list ptr) q :
  listsNonEmpty r → listsNonEmpty (<[D := l ++ [q]]> r).
Proof.
  intros Hr D'. destruct (decide (D = D')) as [->|Hne].
  - rewrite lookup_insert_eq. intros [= E]. by destruct l.
  - rewrite lookup_insert_ne by done. apply Hr.
Qed.

Lemma listsNonEmpty_recordPackage (r : gmap string (list ptr)) pkg :
  listsNonEmpty r → listsNonEmpty (recordPackage deref r pkg).
Proof.
  unfold recordPackage. intros Hr.
  assert (∀ deps r0, listsNonEmpty r0 → listsNonEmpty (foldl (recordDep deref pkg) r0 deps))
    as Hfirst.
  { induction deps as [|dep deps IH]; intros r0 Hr0; [done|]. simpl. apply IH.
    unfold recordDep. destruct (strings_HasPrefix _ _); [|done].
    by apply listsNonEmpty_insert. }
  assert (∀ imps r0, listsNonEmpty r0 →
            listsNonEmpty (foldl (recordTestDep deref pkg) r0 imps)) as Hsecond.
  { induction imps as [|imp imps IH]; intros r0 Hr0; [done|]. simpl. apply IH.
    unfold recordTestDep. destruct (_ && _); [|done].
    by apply listsNonEmpty_insert. }
  by apply Hsecond, Hfirst.
Qed.

Lemma listsNonEmpty_buildRevdeps_in (order : list (string * ptr)) :
  listsNonEmpty (buildRevdeps_in deref order).
Proof.
  unfold buildRevdeps_in.
  assert (∀ r, listsNonEmpty r →
            listsNonEmpty (foldl (λ revdeps entry, recordPackage deref revdeps entry.2)
                             r order)) as Hfold.
  { induction order as [|e order IH]; intros r Hr; [done|]. simpl.
    by apply IH, listsNonEmpty_recordPackage. }
  apply Hfold. intros D. by rewrite lookup_empty.
Qed.

End SelectionFacts.

(** X7. A change to a production file of a package that has reverse
    dependents selects the dependents and the package itself: for a batch
    confined to the directory of [Q] in which some file is neither ignored
    nor a test file, [testsToRun] returns the dependent list followed by
    [Q], and the batch resolves to the import paths of those of them that
    have tests. *)
Theorem X7_production_change_selects_dependents (deref : ptr → Package)
    (pkgs : gmap string ptr) (revdeps : gmap string (list ptr))
    (filenames : list string) (dir : string) (Q : ptr)
    (order : list (string * list string)) :
  pkgs !! dir = Some Q →
  (∀ path, path ∈ filenames → (splitPath path).1 = dir) →
  revdeps !!! ImportPath (deref Q) ≠ [] →
  (∃ f, f ∈ filesIn dir filenames ∧ (f ∉ IgnoredGoFiles (deref Q))
        ∧ isTestFile deref Q f = false) →
  visits (groupByDir filenames) order →
  testsToRun deref Q (revdeps !!! ImportPath (deref Q)) (filesIn dir filenames)
  = revdeps !!! ImportPath (deref Q) ++ [Q]
  ∧ ∀ s, s ∈ resolve_in deref pkgs revdeps order ↔
         ∃ q, (q ∈ revdeps !!! ImportPath (deref Q) ∨ q = Q)
              ∧ hasNoTests deref q = false ∧ ImportPath (deref q) = s.
Proof.
  intros HQ Hdir Hrd Hprod Hvisit.
  assert (testsToRun deref Q (revdeps !!! ImportPath (deref Q)) (filesIn dir filenames)
          = revdeps !!! ImportPath (deref Q) ++ [Q]) as Hrun
    by by apply testsToRun_production.
  split; [done|]. intros s.
  rewrite (elem_of_resolve_in deref pkgs revdeps filenames order s Hvisit). split.
  - intros (d & pkg & q & Hp & Hq & Htests & Hs).
    destruct (decide (d = dir)) as [->|Hne].
    + rewrite HQ in Hp. injection Hp as <-. rewrite Hrun in Hq.
      exists q. split_and!; [|done|done].
      by apply elem_of_app in Hq as [?|?%list_elem_of_singleton]; [left|right].
    + assert (filesIn d filenames = []) as E.
      { apply elem_of_nil_inv. intros f (path & Hin & Hsplit)%elem_of_filesIn.
        apply Hdir in Hin. rewrite Hsplit in Hin. done. }
      rewrite E, testsToRun_nil_files in Hq. by apply elem_of_nil in Hq.
  - intros (q & Hq & Htests & Hs). exists dir, Q, q. rewrite Hrun.
    split_and!; [done| |done|done].
    apply elem_of_app. destruct Hq as [?| ->]; [by left | right].
    by apply list_elem_of_singleton.
Qed.

Lemma X7_witness :
  testsToRun Sample.store 0 (Sample.revdeps !!! ImportPath (Sample.store 0))
    (filesIn "/src/app/core" ["/src/app/core/core.go"])
  = Sample.revdeps !!! ImportPath (Sample.store 0) ++ [0]
  ∧ ∀ s, s ∈ resolve Sample.store Sample.pkgs Sample.revdeps ["/src/app/core/core.go"] ↔
         ∃ q, (q ∈ Sample.revdeps !!! ImportPath (Sample.store 0) ∨ q = 0)
              ∧ hasNoTests Sample.store q = false ∧ ImportPath (Sample.store q) = s.
Proof.
  apply (X7_production_change_selects_dependents Sample.store Sample.pkgs Sample.revdeps
           ["/src/app/core/core.go"] "/src/app/core" 0).
  - vm_compute. reflexivity.
  - intros path ->%list_elem_of_singleton. vm_compute. reflexivity.
  - vm_compute. discriminate.
  - exists "core.go". split_and!.
    + vm_compute. apply list_elem_of_here.
    + vm_compute. intros H. apply list_elem_of_singleton in H. discriminate H.
    + vm_compute. reflexivity.
  - apply visits_canonical.
Defined.

(** X8. Batching changes nothing to what is selected: a path is selected
    for a batch exactly when it is selected for one of the changed paths of
    the batch taken alone, whether the changed paths lie in the same
    directory or not. *)
Theorem X8_batch_is_union_of_paths (deref : ptr → Package) (pkgs : gmap string ptr)
    (revdeps : gmap string (list ptr)) (filenames : list string)
    (order : list (string * list string)) (s : string) :
  visits (groupByDir filenames) order →
  s ∈ resolve_in deref pkgs revdeps order ↔
  ∃ path, path ∈ filenames ∧ s ∈ resolve deref pkgs revdeps [path].
Proof.
  intros Hvisit.
  rewrite (elem_of_resolve_in deref pkgs revdeps filenames order s Hvisit). split.
  - intros (d & pkg & q & Hp & Hq & Hrest).
    apply elem_of_testsToRun_paths in Hq as (path & Hin & Hq).
    exists path. split; [done|]. unfold resolve.
    apply (elem_of_resolve_in deref pkgs revdeps [path]); [apply visits_canonical|].
    by exists d, pkg, q.
  - intros (path & Hin & Hs). unfold resolve in Hs.
    apply (elem_of_resolve_in deref pkgs revdeps [path]) in Hs; [|apply visits_canonical].
    destruct Hs as (d & pkg & q & Hp & Hq & Hrest).
    exists d, pkg, q. split; [done|]. split; [|done].
    apply elem_of_testsToRun_paths. by exists path.
Qed.

Lemma X8_witness :
  "example.com/app/api" ∈ resolve Sample.store Sample.pkgs Sample.revdeps
                            ["/src/app/core/core_test.go"; "/src/app/core/core.go"] ↔
  ∃ path, path ∈ ["/src/app/core/core_test.go"; "/src/app/core/core.go"]
          ∧ "example.com/app/api" ∈ resolve Sample.store Sample.pkgs Sample.revdeps [path].
Proof.
  apply (X8_batch_is_union_of_paths Sample.store Sample.pkgs Sample.revdeps
           ["/src/app/core/core_test.go"; "/src/app/core/core.go"]).
  apply visits_canonical.
Defined.


(** X10. The keys of the reverse index are exactly the import paths on
    which some visited package depends within its module, and no key holds
    an empty list; so [testsToRun] sees an empty dependent list for a
    package exactly when no package of the module imports it. *)
Theorem X10_index_keys (deref : ptr → Package) (order : list (string * ptr))
    (D : string) :
  (is_Some (buildRevdeps_in deref order !! D)
   ↔ ∃ Q, Q ∈ order.*2 ∧ dependsOn deref Q D)
  ∧ buildRevdeps_in deref order !! D ≠ Some []
  ∧ (buildRevdeps_in deref order !!! D = []
     ↔ ¬ ∃ Q, Q ∈ order.*2 ∧ dependsOn deref Q D).
Proof.
  pose proof (listsNonEmpty_buildRevdeps_in deref order D) as Hne.
  assert (buildRevdeps_in deref order !!! D = []
          ↔ ¬ ∃ Q, Q ∈ order.*2 ∧ dependsOn deref Q D) as Hempty.
  { split.
    - intros E (Q & HQ). apply elem_of_buildRevdeps_in in HQ. rewrite E in HQ.
      by apply elem_of_nil in HQ.
    - intros Hnone. apply elem_of_nil_inv. intros Q HQ. apply Hnone. exists Q.
      by apply elem_of_buildRevdeps_in. }
  split_and!; [|done|done]. split.
  - intros [l Hl]. destruct l as [|Q l]; [done|]. exists Q.
    apply elem_of_buildRevdeps_in. rewrite (lookup_total_correct _ _ _ Hl). by left.
  - intros (Q & HQ). apply elem_of_buildRevdeps_in in HQ.
    destruct (buildRevdeps_in deref order !! D) as [l|] eqn:Hl; [done|].
    rewrite lookup_total_alt, Hl in HQ. by apply elem_of_nil in HQ.
Qed.

(** X11. What is selected depends neither on the order in which
    [buildRevdeps] visits the package map nor on the order in which
    [runAllTests] visits the directory groups. *)
Theorem X11_selection_independent_of_range_orders (deref : ptr → Package)
    (pkgs : gmap string ptr) (filenames : list string)
    (op1 op2 : list (string * ptr)) (o1 o2 : list (string * list string)) :
  visits pkgs op1 → visits pkgs op2 →
  visits (groupByDir filenames) o1 → visits (groupByDir filenames) o2 →
  resolve_in deref pkgs (buildRevdeps_in deref op1) o1
  = resolve_in deref pkgs (buildRevdeps_in deref op2) o2.
Proof. apply resolve_independent_of_range_order. Qed.

Lemma X11_witness :
  resolve_in Sample.store Sample.pkgs
    (buildRevdeps_in Sample.store (map_to_list Sample.pkgs))
    (map_to_list (groupByDir ["/src/app/core/core.go"; "/src/app/util/util.go"]))
  = resolve_in Sample.store Sample.pkgs
      (buildRevdeps_in Sample.store (reverse (map_to_list Sample.pkgs)))
      (reverse (map_to_list (groupByDir ["/src/app/core/core.go"; "/src/app/util/util.go"]))).
Proof.
  apply (X11_selection_independent_of_range_orders Sample.store Sample.pkgs
           ["/src/app/core/core.go"; "/src/app/util/util.go"]).
  - apply visits_canonical.
  - unfold visits. apply reverse_Permutation.
  - apply visits_canonical.
  - unfold visits. apply reverse_Permutation.
Defined.

(** X12. Nothing unrelated to the change is selected. With the index built
    by [buildRevdeps], every selected path is the import path of a package
    with tests that either owns a changed file that is not ignored, or is a
    package of the map that imports the owner of such a file, in production
    or in test code. *)
Theorem X12_selection_is_sound (deref : ptr → Package) (pkgs : gmap string ptr)
    (filenames : list string) (op : list (string * ptr))
    (order : list (string * list string)) (s : string) :
  visits pkgs op →
  visits (groupByDir filenames) order →
  s ∈ resolve_in deref pkgs (buildRevdeps_in deref op) order →
  ∃ path Q q,
    path ∈ filenames
    ∧ pkgs !! (splitPath path).1 = Some Q
    ∧ ((splitPath path).2 ∉ IgnoredGoFiles (deref Q))
    ∧ (q = Q ∨ ((∃ dir, pkgs !! dir = Some q) ∧ dependsOn deref q (ImportPath (deref Q))))
    ∧ hasNoTests deref q = false
    ∧ ImportPath (deref q) = s.
Proof.
  intros Hop Hvisit Hs.
  apply (elem_of_resolve_in deref pkgs _ filenames order s Hvisit) in Hs
    as (dir & Q & q & HQ & Hq & Htests & Hpath).
  apply elem_of_testsToRun in Hq as (_ & (f & Hf & Hnot) & Hq).
  apply elem_of_filesIn in Hf as (path & Hin & Hsplit).
  exists path, Q, q. rewrite Hsplit. simpl. split_and!; [done|done|done| |done|done].
  destruct Hq as [->|[Hq _]]; [by left | right].
  apply elem_of_buildRevdeps_in in Hq as [Hq Hdep]. split; [|done].
  by apply (elem_of_visits_2 pkgs op q Hop).
Qed.

Lemma X12_witness :
  ∃ path Q q,
    path ∈ ["/src/app/core/core.go"]
    ∧ Sample.pkgs !! (splitPath path).1 = Some Q
    ∧ ((splitPath path).2 ∉ IgnoredGoFiles (Sample.store Q))
    ∧ (q = Q ∨ ((∃ dir, Sample.pkgs !! dir = Some q)
                ∧ dependsOn Sample.store q (ImportPath (Sample.store Q))))
    ∧ hasNoTests Sample.store q = false
    ∧ ImportPath (Sample.store q) = "example.com/app/api".
Proof.
  apply (X12_selection_is_sound Sample.store Sample.pkgs ["/src/app/core/core.go"]
           (map_to_list Sample.pkgs)
           (map_to_list (groupByDir ["/src/app/core/core.go"]))).
  - apply visits_canonical.
  - apply visits_canonical.
  - vm_compute. apply list_elem_of_here.
Defined.

(** ** The first revision *)

(** X17. For a single changed path the two revisions select the same
    packages: what [runAllTests] resolves for the batch holding just that
    path is what the first revision hands to [go test] for the event, put
    in order and without repetition. In particular both select nothing for
    an unknown directory, an ignored file or a package without dependents. *)
Theorem X17_revisions_agree_on_one_event (deref : ptr → Package)
    (go : list string → option string) (pkgs : gmap string ptr)
    (revdeps : gmap string (list ptr)) (path : string) :
  resolve deref pkgs revdeps [path]
  = slices_Compact (slices_Sort (arguments (V1.run_event deref go pkgs revdeps path))).
Proof.
  unfold resolve, resolve_in, groupByDir, V1.run_event. simpl.
  destruct (splitPath path) as [dir file]. rewrite insert_empty, map_to_list_singleton.
  unfold collectAll, collectDir, pathsOf. simpl.
  destruct (pkgs !! dir) as [pkg|]; [|done].
  unfold arguments. cbn [executed]. unfold testsToRun, V1.runTests.
  destruct (length (revdeps !!! ImportPath (deref pkg)) =? 0)%nat; [done|].
  rewrite lookup_total_empty. simpl. unfold isIgnored.
  destruct (slices_Contains (IgnoredGoFiles (deref pkg)) file); [done|].
  simpl. unfold isTestFile.
  set (toRun := if slices_Contains (TestGoFiles (deref pkg)) file
                   || slices_Contains (XTestGoFiles (deref pkg)) file
                then [pkg] else revdeps !!! ImportPath (deref pkg) ++ [pkg]).
  assert ((if negb (slices_Contains (TestGoFiles (deref pkg)) file
                    || slices_Contains (XTestGoFiles (deref pkg)) file)
           then false else true)
          = (slices_Contains (TestGoFiles (deref pkg)) file
             || slices_Contains (XTestGoFiles (deref pkg)) file)) as ->
    by by destruct (_ || _).
  fold toRun.
  destruct (slices_DeleteFunc toRun (hasNoTests deref)) as [|q kept]; [done|].
  change (length (q :: kept) =? 0)%nat with false. cbv iota.
  by destruct (go _).
Qed.
